(** * Redmine to Azure DevOps migration: the orchestration engine

    A shallow embedding of [field-mapper.js], [ado-util.js], the Redmine
    client ([RedmineUtil]) and [migrate.js], with the properties of the
    design document stated and settled against the code.

    Layout.  First the embedding: JavaScript values, the configuration and
    the source record; the field transformation ([FieldMapper]); the
    identity map; the effectful part (Redmine reads, Azure DevOps writes,
    the orchestrator) in a state and exception monad over the requests sent
    and the identity map.  Then the vocabulary in which the properties are
    stated, with sample data.  Then the properties, by component. *)

From stdpp Require Import gmap strings list fin_maps.
From Stdlib Require Import ZArith DecimalString.

Local Open Scope Z_scope.

#[local] Set Warnings "-register-all".

(** ** JavaScript values

    The values that YAML and JSON documents put at the leaves of the
    configuration and of a Redmine issue.  Numbers are the integers (ids,
    ratios, priorities, delays); the code only copies numbers and tests them
    for truthiness.  [VProto name] is the member [name] of
    [Object.prototype]: what a mapping of the parsed document, a plain
    object, answers under a name it has no entry for (a built-in function,
    or the prototype itself under ["__proto__"]). *)

Inductive value : Type :=
| VUndefined
| VNull
| VBool (b : bool)
| VNum (n : Z)
| VStr (s : string)
| VArr (items : list value)
| VProto (name : string).

(** ToBoolean: what [if (v)], [v || w] and [v && w] test. *)
Definition truthy (v : value) : bool :=
  match v with
  | VUndefined | VNull => false
  | VBool b => b
  | VNum n => negb (n =? 0)
  | VStr s => negb (String.eqb s "")
  | VArr _ => true
  | VProto _ => true
  end.

(** [v === undefined || v === null]. *)
Definition nullish (v : value) : bool :=
  match v with
  | VUndefined | VNull => true
  | _ => false
  end.

(** [v !== false]. *)
Definition not_false (v : value) : bool :=
  match v with
  | VBool false => false
  | _ => true
  end.

(** [a || b]. *)
Definition js_or (a b : value) : value := if truthy a then a else b.

(** Decimal rendering of an integer, as a template literal prints it. *)
Definition show_num (n : Z) : string := NilZero.string_of_int (Z.to_int n).

(** The text of a member of [Object.prototype]: the source text of a
    built-in function, and of the prototype object itself. *)
Definition proto_text (name : string) : string :=
  if String.eqb name "__proto__" then "[object Object]"
  else if String.eqb name "constructor" then "function Object() { [native code] }"
  else "function " +:+ name +:+ "() { [native code] }".

(** ToString: template literals, string concatenation and property keys. *)
Fixpoint to_string (v : value) : string :=
  match v with
  | VUndefined => "undefined"
  | VNull => "null"
  | VBool true => "true"
  | VBool false => "false"
  | VNum n => show_num n
  | VStr s => s
  | VArr items =>
      (fix join (l : list value) : string :=
         match l with
         | [] => ""
         | [x] => if nullish x then "" else to_string x
         | x :: l' => (if nullish x then "" else to_string x) +:+ "," +:+ join l'
         end) items
  | VProto name => proto_text name
  end.

(** The member names of [Object.prototype]. *)
Definition inherited_names : list string :=
  [ "constructor"; "__defineGetter__"; "__defineSetter__"; "hasOwnProperty";
    "__lookupGetter__"; "__lookupSetter__"; "isPrototypeOf"; "propertyIsEnumerable";
    "toString"; "valueOf"; "__proto__"; "toLocaleString" ].

Definition inherited_name (k : string) : bool := existsb (String.eqb k) inherited_names.

(** A YAML mapping from names to leaves, by its own entries.  [read o k] is
    what [o[k]] finds: the own entry, else the member of [Object.prototype]
    of that name, else nothing. *)
Definition read (o : gmap string value) (k : string) : option value :=
  match o !! k with
  | Some v => Some v
  | None => if inherited_name k then Some (VProto k) else None
  end.

(** [t?.[k]] on a section of the document, [None] when the file has no
    such section: [undefined] without a section or without anything to
    find. *)
Definition prop (t : option (gmap string value)) (k : string) : value :=
  default VUndefined (t ≫= fun o => read o k).

(** [fields[k] = v] on the plain object [fields], by its own entries: the
    name ["__proto__"] is the prototype accessor, and assigning to it adds
    no entry. *)
Definition assign (k : string) (v : value) (fields : gmap string value)
  : gmap string value :=
  if String.eqb k "__proto__" then fields else <[k := v]> fields.

(** The double quote character, for the HTML of the description banner. *)
Definition dquote : string :=
  String (Ascii.Ascii false true false false false true false false) EmptyString.

(** ** Configuration ([field-mapping.yaml])

    The sections of the parsed document, [None] for a section that the
    file does not have.  An option that is not set, or whose section is
    missing, reads [undefined]. *)

Record MigrationOptions := {
  preserve_redmine_id : value;
  add_redmine_link : value;
  migrate_attachments : value;
  migrate_comments : value;
  migrate_relations : value;
  migrate_subtasks : value;
  delay_ms : value;
  (** used as the step of a loop counter: a number when present *)
  batch_size : option Z
}.

(** [status_mappings] holds the tables by work item type, the one under
    ["default"] among them; an entry that is no mapping counts as missing. *)
Record Config := {
  work_item_types : option (gmap string value);
  status_mappings : option (gmap string (gmap string value));
  priority_mappings : option (gmap string value);
  relation_mappings : option (gmap string value);
  custom_field_mappings : option (gmap string value);
  migration_options : MigrationOptions
}.

(** ** The source record (a Redmine issue, as the REST API returns it) *)

(** [{ id, name }] references: tracker, status, priority, assignee. *)
Record NamedRef := { name : value }.

(** [o?.name]. *)
Definition opt_name (o : option NamedRef) : value :=
  from_option name VUndefined o.

Record CustomField := { cf_name : value; cf_value : value }.

Record Relation := {
  issue_id : value;
  issue_to_id : value;
  relation_type : value
}.

Record Attachment := { content_url : string; filename : string }.

(** A journal entry and its field changes. *)
Record JournalDetail := {
  detail_name : value;
  old_value : value;
  new_value : value
}.

Record Journal := {
  journal_created_on : value;
  journal_user : option NamedRef;
  notes : value;
  details : option (list JournalDetail)
}.

Record Issue := {
  id : Z;
  subject : value;
  description : value;
  tracker : option NamedRef;
  status : option NamedRef;
  priority : option NamedRef;
  assigned_to : option NamedRef;
  start_date : value;
  due_date : value;
  created_on : value;
  updated_on : value;
  closed_on : value;
  estimated_hours : value;
  done_ratio : value;
  (** [None]: absent or not an array *)
  custom_fields : option (list CustomField);
  (** [parent?.id] *)
  parent : option value;
  relations : option (list Relation);
  journals : option (list Journal);
  attachments : option (list Attachment)
}.

(** ** FieldMapper ([field-mapper.js]) *)

Section FieldMapper.

(** [this.config] *)
Context (config : Config).
(** [process.env.REDMINE_URL] *)
Context (REDMINE_URL : value).

Definition mapWorkItemType (redmineTracker : value) : value :=
  let mapping := prop (work_item_types config) (to_string redmineTracker) in
  js_or (js_or mapping (prop (work_item_types config) "default")) (VStr "Issue").

(** [status_mappings?.[name]] as a table: the table the document holds
    under the name.  A name without a table of its own that is a member
    name of [Object.prototype] reads as that member, a built-in function
    and no table of the document: what [mapStatus] then finds in it is
    outside the model, which follows the code on the names that read a
    table or [undefined] ([reads_table] below). *)
Definition status_table (name : string) : option (gmap string value) :=
  status_mappings config ≫= fun tables => tables !! name.

Definition mapStatus (redmineStatus workItemType : value) : value :=
  let workItemMappings := status_table (to_string workItemType) in
  let specific := prop workItemMappings (to_string redmineStatus) in
  if truthy specific then specific
  else
    let defaultMappings := status_table "default" in
    let fallback := prop defaultMappings (to_string redmineStatus) in
    if truthy fallback then fallback else VStr "New".

Definition mapPriority (redminePriority : value) : value :=
  let mapping := prop (priority_mappings config) (to_string redminePriority) in
  if truthy mapping then mapping
  else js_or (prop (priority_mappings config) "default") (VNum 3).

Definition mapRelationType (redmineRelationType : value) : value :=
  let mapping := prop (relation_mappings config) (to_string redmineRelationType) in
  js_or mapping (VStr "System.LinkTypes.Related").

(** One turn of the loop over [issue.custom_fields]. *)
Definition copy_custom_field (fields : gmap string value) (customField : CustomField)
  : gmap string value :=
  let fieldName := cf_name customField in
  let adoFieldName := prop (custom_field_mappings config) (to_string fieldName) in
  if truthy adoFieldName && truthy (cf_value customField)
  then assign (to_string adoFieldName) (cf_value customField) fields
  else fields.

(** The description: id banner, link banner with its separator, body. *)
Definition compose_description (issue : Issue) : string :=
  let opts := migration_options config in
  let descr := "" in
  let descr :=
    if truthy (preserve_redmine_id opts)
    then descr +:+ "<b>Migrated from Redmine Issue #" +:+ show_num (id issue) +:+ "</b><br/>"
    else descr in
  let descr :=
    if truthy (add_redmine_link opts) && negb (id issue =? 0)
    then
      let redmineUrl :=
        to_string (js_or REDMINE_URL (VStr "")) +:+ "/issues/" +:+ show_num (id issue) in
      let descr :=
        descr +:+ "<b>Original URL:</b> <a href=" +:+ dquote +:+ redmineUrl +:+ dquote
          +:+ ">" +:+ redmineUrl +:+ "</a><br/><br/>" in
      descr +:+ "<hr/><br/>"
    else descr in
  if truthy (description issue)
  then descr +:+ to_string (description issue)
  else descr.

(** [fields[key] = v] when the guard holds. *)
Definition set_if (guard : bool) (key : string) (v : value) (fields : gmap string value)
  : gmap string value :=
  if guard then <[key := v]> fields else fields.

Definition mapRedmineIssueToAdoFields (issue : Issue)
  : value * gmap string value :=
  let workItemType := mapWorkItemType (js_or (opt_name (tracker issue)) (VStr "Task")) in
  let fields : gmap string value := ∅ in
  let fields := <["System.Title" := js_or (subject issue) (VStr "Untitled")]> fields in
  let fields := <["System.Description" := VStr (compose_description issue)]> fields in
  let fields :=
    set_if (truthy (opt_name (status issue)))
      "System.State" (mapStatus (opt_name (status issue)) workItemType) fields in
  let fields :=
    set_if (truthy (opt_name (priority issue)))
      "Microsoft.VSTS.Common.Priority" (mapPriority (opt_name (priority issue))) fields in
  let fields :=
    set_if (truthy (opt_name (assigned_to issue)))
      "System.AssignedTo" (opt_name (assigned_to issue)) fields in
  let fields :=
    set_if (truthy (start_date issue))
      "Microsoft.VSTS.Scheduling.StartDate" (start_date issue) fields in
  let fields :=
    set_if (truthy (due_date issue))
      "Microsoft.VSTS.Scheduling.DueDate" (due_date issue) fields in
  let fields :=
    set_if (truthy (created_on issue)) "System.CreatedDate" (created_on issue) fields in
  let fields :=
    set_if (truthy (updated_on issue)) "System.ChangedDate" (updated_on issue) fields in
  let fields :=
    set_if (truthy (closed_on issue))
      "Microsoft.VSTS.Common.ClosedDate" (closed_on issue) fields in
  let fields :=
    set_if (truthy (estimated_hours issue))
      "Microsoft.VSTS.Scheduling.OriginalEstimate" (estimated_hours issue) fields in
  let fields :=
    set_if (negb (nullish (done_ratio issue)))
      "Microsoft.VSTS.Scheduling.CompletedWork" (done_ratio issue) fields in
  let fields :=
    match custom_fields issue with
    | Some customFields => foldl copy_custom_field fields customFields
    | None => fields
    end in
  (workItemType, fields).

Definition shouldMigrateAttachments : bool :=
  not_false (migrate_attachments (migration_options config)).

Definition shouldMigrateComments : bool :=
  not_false (migrate_comments (migration_options config)).

Definition shouldMigrateRelations : bool :=
  not_false (migrate_relations (migration_options config)).

Definition shouldMigrateSubtasks : bool :=
  not_false (migrate_subtasks (migration_options config)).

Definition getDelayMs : value :=
  js_or (delay_ms (migration_options config)) (VNum 100).

Definition getBatchSize : Z :=
  match batch_size (migration_options config) with
  | Some n => if n =? 0 then 50 else n
  | None => 50
  end.

End FieldMapper.

(** ** Completions

    A JavaScript operation completes normally or throws.  [Unfinished] is
    the model's third outcome: a loop was followed for as many turns as the
    fuel allowed and had not ended. *)

Inductive completion (A : Type) : Type :=
| Normal (a : A)
| Throw (error : string)
| Unfinished.

Arguments Normal {A} a.
Arguments Throw {A} error.
Arguments Unfinished {A}.

(** ** The identity map ([issueIdMap] of [migrate.js])

    A JavaScript [Map] from Redmine issue ids to work item ids. *)

(** [Map.prototype.set]: inserts, or replaces the value of a present key. *)
Definition issueIdMap_set (m : gmap Z Z) (sourceId targetId : Z) : completion (gmap Z Z) :=
  Normal (<[sourceId := targetId]> m).

(** [Map.prototype.get]. *)
Definition issueIdMap_get (m : gmap Z Z) (sourceId : Z) : option Z := m !! sourceId.

(** [issueIdMap.get(k)] at a key read from a document: the map holds number
    keys only, and a key of another type equals none of them. *)
Definition issueIdMap_get_value (m : gmap Z Z) (k : value) : option Z :=
  match k with
  | VNum n => issueIdMap_get m n
  | _ => None
  end.

(** A run of [set] calls from a given map, in order, stopping at the first
    one that does not complete normally. *)
Fixpoint set_all (m : gmap Z Z) (puts : list (Z * Z)) : completion (gmap Z Z) :=
  match puts with
  | [] => Normal m
  | (sourceId, targetId) :: rest =>
      match issueIdMap_set m sourceId targetId with
      | Normal m' => set_all m' rest
      | Throw e => Throw e
      | Unfinished => Unfinished
      end
  end.

(** Truthiness of what [issueIdMap.get] returned ([undefined] or a number). *)
Definition truthy_id (o : option Z) : bool :=
  match o with
  | Some n => negb (n =? 0)
  | None => false
  end.

(** ** Requests, the outside world and the run state *)

(** The requests the program sends, in the order it sends them.  A request
    is recorded when it is sent, whatever the answer. *)
Inductive event : Type :=
| GetIssues (project_id : value) (offset : Z)
| GetIssueDetails (issueId : Z)
| GetAttachmentContent (attachmentUrl : string)
| CreateWorkItem (workItemType : value) (patch : gmap string value)
| AddComment (workItemId : Z) (commentText : string)
| UploadAttachment (fileName : string)
| AttachFile (workItemId : Z) (attachmentUrl : value) (fileName : string)
| CreateLink (sourceWorkItemId targetWorkItemId : Z) (linkType : value) (comment : string)
| Delay (ms : value)
| WriteMapping (mapping : gmap Z Z).

Record State := {
  trace : list event;
  issueIdMap : gmap Z Z
}.

(** Computations that read and extend the state and may throw. *)
Definition M (A : Type) : Type := State -> completion A * State.

Definition ret {A} (a : A) : M A := fun s => (Normal a, s).

Definition bind {A B} (m : M A) (k : A -> M B) : M B :=
  fun s =>
    match m s with
    | (Normal a, s') => k a s'
    | (Throw e, s') => (Throw e, s')
    | (Unfinished, s') => (Unfinished, s')
    end.

Notation "'let*' x ':=' m 'in' k" := (bind m (fun x => k))
  (at level 10, x name, m at level 100, k at level 200).
Notation "m '>>' k" := (bind m (fun _ => k))
  (at level 100, k at level 200, right associativity).

(** A pure operation's completion, in a computation. *)
Definition lift {A} (c : completion A) : M A := fun s => (c, s).

(** Send a request: the answer is a function of the requests sent before. *)
Definition request {A} (answer : list event -> A) (e : event) : M A :=
  fun s => (Normal (answer (trace s)),
            {| trace := trace s ++ [e]; issueIdMap := issueIdMap s |}).

Definition get_map : M (gmap Z Z) := fun s => (Normal (issueIdMap s), s).

Definition put_map (m : gmap Z Z) : M unit :=
  fun s => (Normal tt, {| trace := trace s; issueIdMap := m |}).

(** [for (const x of l) body(x)]. *)
Fixpoint for_each {A} (l : list A) (body : A -> M unit) : M unit :=
  match l with
  | [] => ret tt
  | x :: rest => body x >> for_each rest body
  end.

(** [if (c) body]. *)
Definition when (c : bool) (body : M unit) : M unit :=
  if c then body else ret tt.

(** [Array.prototype.slice(start, end)] on integer bounds. *)
Definition js_slice {A} (l : list A) (start stop : Z) : list A :=
  let len := Z.of_nat (length l) in
  let from := if start <? 0 then Z.max (len + start) 0 else Z.min start len in
  let to := if stop <? 0 then Z.max (len + stop) 0 else Z.min stop len in
  take (Z.to_nat (to - from)) (drop (Z.to_nat from) l).

(** The bytes of a downloaded file. *)
Definition Content : Type := list Byte.byte.

(** One page of [GET /issues.json]. *)
Record Page := {
  issues : option (list Issue);
  total_count : option Z
}.

(** The two servers: each answer may depend on everything sent so far.
    [None] is a failed request (the client methods catch it). *)
Record World := {
  redmine_issues : list event -> value -> Z -> option Page;
  redmine_issue : list event -> Z -> option Issue;
  redmine_attachment : list event -> string -> option Content;
  ado_create : list event -> value -> gmap string value -> option Z;
  ado_comment : list event -> Z -> string -> bool;
  ado_upload : list event -> Content -> string -> value;
  ado_attach : list event -> Z -> value -> string -> bool;
  ado_link : list event -> Z -> Z -> value -> string -> bool
}.

(** ** AdoUtil ([ado-util.js]): the Target Writer *)

Section AdoUtil.

Context (world : World).
(** [this.project] *)
Context (project : string).

(** The JSON patch of [createWorkItem], by field path: the fields that are
    neither [null] nor [undefined], with the project as area and iteration
    path when the fields set none. *)
Definition patch_document (fields : gmap string value) : gmap string value :=
  let patchDocument := filter (fun entry => nullish entry.2 = false) fields in
  let patchDocument :=
    match patchDocument !! "System.AreaPath" with
    | Some _ => patchDocument
    | None => <["System.AreaPath" := VStr project]> patchDocument
    end in
  match patchDocument !! "System.IterationPath" with
  | Some _ => patchDocument
  | None => <["System.IterationPath" := VStr project]> patchDocument
  end.

(** The id of the created work item, [None] when the POST failed. *)
Definition createWorkItem (workItemType : value) (fields : gmap string value)
  : M (option Z) :=
  let patchDocument := patch_document fields in
  request (fun sent => ado_create world sent workItemType patchDocument)
          (CreateWorkItem workItemType patchDocument).

Definition addComment (workItemId : Z) (commentText : string) : M bool :=
  request (fun sent => ado_comment world sent workItemId commentText)
          (AddComment workItemId commentText).

(** [response.data.url], [null] when the upload failed. *)
Definition uploadAttachment (fileContent : Content) (fileName : string) : M value :=
  request (fun sent => ado_upload world sent fileContent fileName)
          (UploadAttachment fileName).

Definition attachFileToWorkItem (workItemId : Z) (attachmentUrl : value) (fileName : string)
  : M bool :=
  request (fun sent => ado_attach world sent workItemId attachmentUrl fileName)
          (AttachFile workItemId attachmentUrl fileName).

Definition createLink (sourceWorkItemId targetWorkItemId : Z) (linkType : value)
    (comment : string) : M bool :=
  if sourceWorkItemId =? targetWorkItemId then ret false
  else
    let text :=
      if String.eqb comment "" then "Link: " +:+ to_string linkType else comment in
    request (fun sent => ado_link world sent sourceWorkItemId targetWorkItemId linkType text)
            (CreateLink sourceWorkItemId targetWorkItemId linkType text).

End AdoUtil.

(** ** RedmineUtil: the Source Reader *)

Section RedmineUtil.

Context (world : World).

(** [this.delay(ms)]: [setTimeout(resolve, ms || 50)]. *)
Definition redmine_delay (ms : value) : M unit :=
  request (fun _ => tt) (Delay (js_or ms (VNum 50))).

(** [allIssues.length >= data.total_count]; a comparison with [undefined]
    is false. *)
Definition reached_total (count : nat) (total : option Z) : bool :=
  match total with
  | Some n => n <=? Z.of_nat count
  | None => false
  end.

(** The [while (hasMore)] loop of [getAllIssues], one turn per unit of fuel. *)
Fixpoint getAllIssues_loop (fuel : nat) (project_id : value)
    (allIssues : list Issue) (offset : Z) : M (list Issue) :=
  match fuel with
  | O => lift Unfinished
  | S fuel' =>
      let* response :=
        request (fun sent => redmine_issues world sent project_id offset)
                (GetIssues project_id offset) in
      match response with
      | Some data =>
          let page := default [] (issues data) in
          let allIssues := allIssues ++ page in
          if (length page <? 100)%nat || reached_total (length allIssues) (total_count data)
          then ret allIssues
          else redmine_delay (VNum 100) >>
               getAllIssues_loop fuel' project_id allIssues (offset + 100)
      | None => ret allIssues
      end
  end.

Definition getAllIssues (fuel : nat) (projectIdentifier : value) : M (list Issue) :=
  let project_id := if truthy projectIdentifier then projectIdentifier else VUndefined in
  getAllIssues_loop fuel project_id [] 0.

Definition getIssueDetails (issueId : Z) : M (option Issue) :=
  request (fun sent => redmine_issue world sent issueId) (GetIssueDetails issueId).

Definition getAttachmentContent (attachmentUrl : string) : M (option Content) :=
  request (fun sent => redmine_attachment world sent attachmentUrl)
          (GetAttachmentContent attachmentUrl).

(** [issue?.journals || []] of the detail of an issue; a failed request
    gives none. *)
Definition getIssueHistory (issueId : Z) : M (list Journal) :=
  let* issue := getIssueDetails issueId in
  ret (match issue with
       | Some i => default [] (journals i)
       | None => []
       end).

(** [issue.relations || []]. *)
Definition getRelations (issue : Issue) : list Relation :=
  default [] (relations issue).

(** [new Date(v).toISOString()]: the rendering of a date is left open; it
    throws a RangeError on a value that is no date. *)
Context (toISOString : value -> completion string).

Definition formatJournalAsComment (journal : Journal) : completion string :=
  let date :=
    if truthy (journal_created_on journal)
    then toISOString (journal_created_on journal)
    else Normal "Unknown Date" in
  match date with
  | Normal date =>
      let user := js_or (opt_name (journal_user journal)) (VStr "Unknown User") in
      let notes := js_or (notes journal) (VStr "No notes provided.") in
      let comment := "<b>Update by " +:+ to_string user +:+ " on " +:+ date +:+ "</b><br/>" in
      let comment :=
        match details journal with
        | Some ((_ :: _) as changes) =>
            let comment := comment +:+ "<br/><b>Changes:</b><ul>" in
            let comment :=
              foldl (fun comment detail =>
                let fieldName := js_or (detail_name detail) (VStr "Unknown field") in
                let oldValue := js_or (old_value detail) (VStr "(empty)") in
                let newValue := js_or (new_value detail) (VStr "(empty)") in
                comment +:+ "<li>" +:+ to_string fieldName +:+ ": " +:+ to_string oldValue
                  +:+ " -> " +:+ to_string newValue +:+ "</li>")
                comment changes in
            comment +:+ "</ul>"
        | _ => comment
        end in
      Normal (if truthy notes
              then comment +:+ "<br/><b>Notes:</b><br/>" +:+ to_string notes
              else comment)
  | Throw e => Throw e
  | Unfinished => Unfinished
  end.

(** [issue.parent?.id || null]. *)
Definition getParentId (issue : Issue) : value :=
  js_or (default VUndefined (parent issue)) VNull.

End RedmineUtil.

(** ** The orchestrator ([migrate.js]) *)

Section Migrate.

Context (world : World).
(** [config.azure_devops.project] *)
Context (project : string).
(** the parsed [field-mapping.yaml] of [fieldMapper] *)
Context (config : Config).
Context (REDMINE_URL : value).
(** [config.redmine.project_identifier] *)
Context (project_identifier : value).
(** [new Date(v).toISOString()] *)
Context (toISOString : value -> completion string).

(** [delay(ms)]: [setTimeout(resolve, ms)]. *)
Definition delay (ms : value) : M unit := request (fun _ => tt) (Delay ms).

Definition migrateComments (journals : list Journal) (adoWorkItemId : Z) : M unit :=
  for_each journals (fun journal =>
    let* comment := lift (formatJournalAsComment toISOString journal) in
    addComment world adoWorkItemId comment >>
    delay (getDelayMs config)).

(** The requests of one attachment catch their own failures, so the
    [try] block of the loop body has nothing left to catch. *)
Definition migrateAttachments (attachments : list Attachment) (adoWorkItemId : Z) : M unit :=
  for_each attachments (fun attachment =>
    let* fileContent := getAttachmentContent world (content_url attachment) in
    match fileContent with
    | Some content =>
        let* attachmentUrl := uploadAttachment world content (filename attachment) in
        when (truthy attachmentUrl)
          (attachFileToWorkItem world adoWorkItemId attachmentUrl (filename attachment)
             >> ret tt)
    | None => ret tt
    end >>
    delay (getDelayMs config)).

(** [list && list.length > 0]. *)
Definition non_empty {A} (o : option (list A)) : bool :=
  match o with
  | Some (_ :: _) => true
  | _ => false
  end.

(** The id of the created work item, [None] when the creation failed. *)
Definition migrateIssue (redmineIssue : Issue) : M (option Z) :=
  let mapped := mapRedmineIssueToAdoFields config REDMINE_URL redmineIssue in
  let* workItem := createWorkItem world project mapped.1 mapped.2 in
  match workItem with
  | None => ret None
  | Some workItemId =>
      let* m := get_map in
      let* m' := lift (issueIdMap_set m (id redmineIssue) workItemId) in
      put_map m' >>
      when (shouldMigrateComments config && non_empty (journals redmineIssue))
        (migrateComments (default [] (journals redmineIssue)) workItemId) >>
      when (shouldMigrateAttachments config && non_empty (attachments redmineIssue))
        (migrateAttachments (default [] (attachments redmineIssue)) workItemId) >>
      ret (Some workItemId)
  end.

(** The id that a relation is resolved through: [issue_id || issue_to_id]. *)
Definition targetRedmineId (relation : Relation) : value :=
  js_or (issue_id relation) (issue_to_id relation).

(** One turn of the loop over [issue.relations]. *)
Definition migrate_relation (sourceAdoId : Z) (relation : Relation) : M unit :=
  let* m := get_map in
  let targetAdoId := issueIdMap_get_value m (targetRedmineId relation) in
  match targetAdoId with
  | Some target =>
      when (truthy_id targetAdoId)
        (let linkType := mapRelationType config (relation_type relation) in
         createLink world sourceAdoId target linkType
           (to_string (relation_type relation) +:+ " relationship from Redmine") >>
         delay (getDelayMs config))
  | None => ret tt
  end.

(** The parent step of the loop body of [migrateRelations]. *)
Definition migrate_parent (sourceAdoId : Z) (issue : Issue) : M unit :=
  let parentId := getParentId issue in
  when (truthy parentId)
    (let* m := get_map in
     let parentAdoId := issueIdMap_get_value m parentId in
     match parentAdoId with
     | Some target =>
         when (truthy_id parentAdoId)
           (createLink world sourceAdoId target (VStr "System.LinkTypes.Hierarchy-Reverse")
              "Parent-Child relationship from Redmine" >>
            delay (getDelayMs config))
     | None => ret tt
     end).

(** The loop body of [migrateRelations]. *)
Definition migrate_relations_of (issue : Issue) : M unit :=
  let* m := get_map in
  let sourceAdoId := issueIdMap_get m (id issue) in
  match sourceAdoId with
  | Some source =>
      if truthy_id sourceAdoId then
        when (shouldMigrateSubtasks config) (migrate_parent source issue) >>
        when (shouldMigrateRelations config && non_empty (relations issue))
          (for_each (default [] (relations issue)) (migrate_relation source))
      else ret tt
  | None => ret tt
  end.

Definition migrateRelations (redmineIssues : list Issue) : M unit :=
  for_each redmineIssues migrate_relations_of.

(** The detail loop of [migrateAllIssues]: the records whose detail request
    answered, in the order of the listing. *)
Fixpoint fetch_details (issues : list Issue) (detailedIssues : list Issue)
  : M (list Issue) :=
  match issues with
  | [] => ret detailedIssues
  | issue :: rest =>
      let* detailed := getIssueDetails world (id issue) in
      let detailedIssues :=
        match detailed with
        | Some d => detailedIssues ++ [d]
        | None => detailedIssues
        end in
      delay (getDelayMs config) >>
      fetch_details rest detailedIssues
  end.

(** [for (let i = 0; i < detailedIssues.length; i += batchSize)], one turn
    per unit of fuel. *)
Fixpoint batch_loop (fuel : nat) (detailedIssues : list Issue) (batchSize i : Z)
  : M unit :=
  match fuel with
  | O => lift Unfinished
  | S fuel' =>
      if i <? Z.of_nat (length detailedIssues) then
        let batch := js_slice detailedIssues i (i + batchSize) in
        for_each batch (fun issue =>
          migrateIssue issue >> delay (getDelayMs config)) >>
        batch_loop fuel' detailedIssues batchSize (i + batchSize)
      else ret tt
  end.

Definition migrateAllIssues (fuel : nat) : M unit :=
  let projectIdentifier := js_or project_identifier VNull in
  let* issues := getAllIssues world fuel projectIdentifier in
  match issues with
  | [] => ret tt
  | _ :: _ =>
      let* detailedIssues := fetch_details issues [] in
      batch_loop fuel detailedIssues (getBatchSize config) 0 >>
      migrateRelations detailedIssues >>
      let* m := get_map in
      request (fun _ => tt) (WriteMapping m)
  end.

Definition migrateSingleIssue (issueId : Z) : M unit :=
  let* issue := getIssueDetails world issueId in
  match issue with
  | None => ret tt
  | Some i => migrateIssue i >> ret tt
  end.




(** The state [main] starts from: nothing sent, [new Map()]. *)
Definition initial : State := {| trace := []; issueIdMap := ∅ |}.

End Migrate.

(** * The vocabulary of the properties *)

(** ** Field transformation *)






(** The scalar fields of a source record that the transformation copies. *)
Inductive scalar : Type :=
| Title | AssigneeName | StartDate | DueDate | CreatedDate | UpdatedDate | ClosedDate
| EffortEstimate | CompletionRatio.

(** The source value of a scalar field. *)
Definition source_value (f : scalar) (issue : Issue) : value :=
  match f with
  | Title => subject issue
  | AssigneeName => opt_name (assigned_to issue)
  | StartDate => start_date issue
  | DueDate => due_date issue
  | CreatedDate => created_on issue
  | UpdatedDate => updated_on issue
  | ClosedDate => closed_on issue
  | EffortEstimate => estimated_hours issue
  | CompletionRatio => done_ratio issue
  end.

(** The target field a scalar field is copied to. *)
Definition target_key (f : scalar) : string :=
  match f with
  | Title => "System.Title"
  | AssigneeName => "System.AssignedTo"
  | StartDate => "Microsoft.VSTS.Scheduling.StartDate"
  | DueDate => "Microsoft.VSTS.Scheduling.DueDate"
  | CreatedDate => "System.CreatedDate"
  | UpdatedDate => "System.ChangedDate"
  | ClosedDate => "Microsoft.VSTS.Common.ClosedDate"
  | EffortEstimate => "Microsoft.VSTS.Scheduling.OriginalEstimate"
  | CompletionRatio => "Microsoft.VSTS.Scheduling.CompletedWork"
  end.

(** The target field a custom field of the record is written to, if any:
    the name its mapping gives, unless that is the prototype accessor. *)
Definition custom_target (config : Config) (customField : CustomField) : option string :=
  let adoFieldName := prop (custom_field_mappings config) (to_string (cf_name customField)) in
  if truthy adoFieldName && truthy (cf_value customField)
       && negb (String.eqb (to_string adoFieldName) "__proto__")
  then Some (to_string adoFieldName)
  else None.

(** The target fields that the custom field loop writes for a record. *)
Definition custom_targets (config : Config) (issue : Issue) : list string :=
  omap (custom_target config) (default [] (custom_fields issue)).

(** ** Computations and their requests *)

(** A computation only appends requests, all of which satisfy [P]. *)
Definition emits {A} (P : event -> Prop) (m : M A) : Prop :=
  forall s, exists sent, trace (m s).2 = trace s ++ sent /\ Forall P sent.

(** A computation leaves the identity map as it found it. *)
Definition keeps_map {A} (m : M A) : Prop :=
  forall s, issueIdMap (m s).2 = issueIdMap s.

(** A request that creates a typed link. *)
Definition is_link (e : event) : bool :=
  match e with
  | CreateLink _ _ _ _ => true
  | _ => false
  end.

(** A request that creates a node. *)
Definition is_create (e : event) : bool :=
  match e with
  | CreateWorkItem _ _ => true
  | _ => false
  end.

(** A request that creates neither a node nor a link. *)
Definition is_extra (e : event) : bool := negb (is_create e || is_link e).

(** The node-creation requests among the requests sent, in order. *)
Definition creations (sent : list event) : list event := List.filter is_create sent.

(** The node-creation request of a record: the POST with the type and the
    fields of its transformation. *)
Definition creation_request (project : string) (config : Config) (REDMINE_URL : value)
    (issue : Issue) : event :=
  let mapped := mapRedmineIssueToAdoFields config REDMINE_URL issue in
  CreateWorkItem mapped.1 (patch_document project mapped.2).

(** The fetched records of a full-batch run: those whose detail request
    answered, in the run from the initial state ([detailedIssues]). *)
Definition fetched_records (world : World) (config : Config) (project_identifier : value)
    (fuel : nat) : list Issue :=
  match (let* issues := getAllIssues world fuel (js_or project_identifier VNull) in
         fetch_details world config issues []) initial with
  | (Normal detailedIssues, _) => detailedIssues
  | _ => []
  end.

(** ** The paginated fetch *)

Section Pages.

Context (world : World).
Context (projectIdentifier : value).
(** the state in which [getAllIssues] is called *)
Context (s0 : State).

(** The [project_id] parameter of the requests. *)
Definition request_project_id : value :=
  if truthy projectIdentifier then projectIdentifier else VUndefined.

(** The requests of the first [k] turns of the loop, when each went on to
    the next: the page request and the delay. *)
Fixpoint turns_sent (k : nat) : list event :=
  match k with
  | O => []
  | S k' =>
      turns_sent k' ++ [GetIssues request_project_id (100 * Z.of_nat k'); Delay (VNum 100)]
  end.

(** The answer to the page request of turn [k]. *)
Definition page_response (k : nat) : option Page :=
  redmine_issues world (trace s0 ++ turns_sent k) request_project_id (100 * Z.of_nat k).

(** The records of page [k]; none when the request failed. *)
Definition page_issues (k : nat) : list Issue :=
  match page_response k with
  | Some data => default [] (issues data)
  | None => []
  end.

(** The concatenation of the pages before page [k]. *)
Fixpoint collected (k : nat) : list Issue :=
  match k with
  | O => []
  | S k' => collected k' ++ page_issues k'
  end.

(** The three ways a turn ends the loop. *)
Definition fetch_failed (k : nat) : bool :=
  match page_response k with
  | Some _ => false
  | None => true
  end.

Definition short_page (k : nat) : bool :=
  match page_response k with
  | Some data => (length (default [] (issues data)) <? 100)%nat
  | None => false
  end.

Definition total_reached (k : nat) : bool :=
  match page_response k with
  | Some data => reached_total (length (collected (S k))) (total_count data)
  | None => false
  end.

Definition stops (k : nat) : bool := fetch_failed k || short_page k || total_reached k.

(** Turn [k] is the first that ends the loop. *)
Definition first_stop (k : nat) : Prop :=
  stops k = true /\ forall j, (j < k)%nat -> stops j = false.

(** The state at the start of turn [k]. *)
Definition at_turn (k : nat) : State :=
  {| trace := trace s0 ++ turns_sent k; issueIdMap := issueIdMap s0 |}.

End Pages.

(** ** Sample configurations, records and servers *)

(** A configuration without a section and with nothing set. *)
Definition no_options : MigrationOptions :=
  {| preserve_redmine_id := VUndefined; add_redmine_link := VUndefined;
     migrate_attachments := VUndefined; migrate_comments := VUndefined;
     migrate_relations := VUndefined; migrate_subtasks := VUndefined;
     delay_ms := VUndefined; batch_size := None |}.

Definition empty_config : Config :=
  {| work_item_types := None; status_mappings := None; priority_mappings := None;
     relation_mappings := None; custom_field_mappings := None;
     migration_options := no_options |}.

(** Nothing set but the delay. *)
Definition with_delay (ms : value) : Config :=
  {| work_item_types := None; status_mappings := None; priority_mappings := None;
     relation_mappings := None; custom_field_mappings := None;
     migration_options :=
       {| preserve_redmine_id := VUndefined; add_redmine_link := VUndefined;
          migrate_attachments := VUndefined; migrate_comments := VUndefined;
          migrate_relations := VUndefined; migrate_subtasks := VUndefined;
          delay_ms := ms; batch_size := None |} |}.


(** A default table and a table for the type ["Bug"]. *)
Definition two_level_config : Config :=
  {| work_item_types := None;
     status_mappings :=
       Some {[ "default" := {[ "Open" := VStr "To Do" ]};
               "Bug" := {[ "Closed" := VStr "Done" ]} ]};
     priority_mappings := None; relation_mappings := None; custom_field_mappings := None;
     migration_options := no_options |}.

(** Custom fields mapped onto standard scheduling fields. *)
Definition scheduling_config : Config :=
  {| work_item_types := None; status_mappings := None; priority_mappings := None;
     relation_mappings := None;
     custom_field_mappings :=
       Some {[ "Deadline" := VStr "Microsoft.VSTS.Scheduling.DueDate";
               "Effort" := VStr "Microsoft.VSTS.Scheduling.OriginalEstimate";
               "Progress" := VStr "Microsoft.VSTS.Scheduling.CompletedWork" ]};
     migration_options := no_options |}.

(** A record with the given id, estimate, ratio, custom fields, parent and
    relations, and nothing else. *)
Definition sample_issue (n : Z) (estimate ratio : value)
    (customFields : option (list CustomField)) (parentId : option value)
    (rels : option (list Relation)) : Issue :=
  {| id := n; subject := VUndefined; description := VUndefined;
     tracker := None; status := None; priority := None; assigned_to := None;
     start_date := VUndefined; due_date := VUndefined; created_on := VUndefined;
     updated_on := VUndefined; closed_on := VUndefined;
     estimated_hours := estimate; done_ratio := ratio;
     custom_fields := customFields; parent := parentId; relations := rels;
     journals := None; attachments := None |}.

Definition bare_issue : Issue := sample_issue 1 VUndefined VUndefined None None None.

Definition deadline_issue : Issue :=
  sample_issue 2 VUndefined VUndefined
    (Some [ {| cf_name := VStr "Deadline"; cf_value := VStr "2024-06-30" |} ]) None None.

Definition zero_issue : Issue := sample_issue 3 (VNum 0) (VNum 0) None None None.

Definition zero_issue_custom : Issue :=
  sample_issue 4 (VNum 0) (VNum 0)
    (Some [ {| cf_name := VStr "Effort"; cf_value := VStr "8" |};
            {| cf_name := VStr "Progress"; cf_value := VStr "half" |} ]) None None.

(** Issue 1 relates to issue 2, and issue 2 is a child of issue 1.  Redmine
    lists the relation on both records. *)
Definition relates_1_2 : Relation :=
  {| issue_id := VNum 1; issue_to_id := VNum 2; relation_type := VStr "relates" |}.

(** A relation to a record that was never fetched. *)
Definition blocks_999_1 : Relation :=
  {| issue_id := VNum 999; issue_to_id := VNum 1; relation_type := VStr "blocks" |}.

Definition issue_1 : Issue :=
  sample_issue 1 VUndefined VUndefined None None (Some [blocks_999_1; relates_1_2]).

Definition issue_2 : Issue :=
  sample_issue 2 VUndefined VUndefined None (Some (VNum 1)) (Some [relates_1_2]).

(** Servers that answer every request: one page with the two records, and
    work item ids counted up from 500 by the number of requests sent. *)
Definition sample_world : World :=
  {| redmine_issues := fun _ _ offset =>
       if offset =? 0
       then Some {| issues := Some [issue_1; issue_2]; total_count := Some 2 |}
       else None;
     redmine_issue := fun _ n =>
       if n =? 1 then Some issue_1 else if n =? 2 then Some issue_2 else None;
     redmine_attachment := fun _ _ => None;
     ado_create := fun sent _ _ => Some (500 + Z.of_nat (length sent));
     ado_comment := fun _ _ _ => true;
     ado_upload := fun _ _ _ => VNull;
     ado_attach := fun _ _ _ _ => true;
     ado_link := fun _ _ _ _ _ => true |}.

(** Both records migrated: 1 to 501 and 2 to 502. *)
Definition both_migrated : State :=
  {| trace := []; issueIdMap := {[ 1 := 501; 2 := 502 ]} |}.

(** A source whose first page is full and reports 250 records, and whose
    second page request fails. *)
Definition failing_world : World :=
  {| redmine_issues := fun _ _ offset =>
       if offset =? 0
       then Some {| issues := Some (replicate 100 bare_issue); total_count := Some 250 |}
       else None;
     redmine_issue := fun _ _ => None;
     redmine_attachment := fun _ _ => None;
     ado_create := fun _ _ _ => None;
     ado_comment := fun _ _ _ => false;
     ado_upload := fun _ _ _ => VNull;
     ado_attach := fun _ _ _ _ => false;
     ado_link := fun _ _ _ _ _ => false |}.

(** The full-batch run over the sample world, with dates rendered as they
    are. *)
Definition sample_run : completion unit * State :=
  migrateAllIssues sample_world "Sample" empty_config VUndefined VUndefined
    (fun date => Normal (to_string date)) 3 initial.

(** ** Further vocabulary *)

(** Requests that are paced by a delay of [d]: nothing but delays of [d]
    and link requests, each link request followed at once by a delay. *)
Inductive paced (d : value) : list event -> Prop :=
| paced_nil : paced d []
| paced_delay (rest : list event) : paced d rest -> paced d (Delay d :: rest)
| paced_link (source target : Z) (linkType : value) (comment : string) (rest : list event) :
    paced d rest ->
    paced d (CreateLink source target linkType comment :: Delay d :: rest).

(** A step that completes normally, leaves the identity map as it is, and
    sends requests that satisfy [P]. *)
Definition sends (P : list event -> Prop) (m : M unit) : Prop :=
  forall s, exists sent,
    m s = (Normal tt, {| trace := trace s ++ sent; issueIdMap := issueIdMap s |})
    /\ P sent.

(** The urls of the download requests among the requests sent, in order. *)
Definition downloads (sent : list event) : list string :=
  omap (fun e => match e with GetAttachmentContent u => Some u | _ => None end) sent.


(** The requests of the detail loop for the listed records: the detail
    request of each and the delay after it. *)
Definition detail_requests (config : Config) (issues : list Issue) : list event :=
  flat_map (fun issue => [GetIssueDetails (id issue); Delay (getDelayMs config)]) issues.


(** A request that writes the mapping file. *)
Definition is_write (e : event) : bool :=
  match e with
  | WriteMapping _ => true
  | _ => false
  end.


(** The list item of one change of a journal entry, and the items of all
    its changes, in order. *)
Definition change_line (detail : JournalDetail) : string :=
  "<li>" +:+ to_string (js_or (detail_name detail) (VStr "Unknown field")) +:+ ": "
    +:+ to_string (js_or (old_value detail) (VStr "(empty)")) +:+ " -> "
    +:+ to_string (js_or (new_value detail) (VStr "(empty)")) +:+ "</li>".

Definition change_lines (details : list JournalDetail) : string :=
  foldr (fun detail rest => change_line detail +:+ rest) "" details.

(** A comment request; a request of the migration of an attachment. *)
Definition is_comment (e : event) : bool :=
  match e with
  | AddComment _ _ => true
  | _ => false
  end.

Definition is_attachment (e : event) : bool :=
  match e with
  | GetAttachmentContent _ | UploadAttachment _ | AttachFile _ _ _ => true
  | _ => false
  end.

(** A link request between two different work items of the map, with a
    comment; any other request. *)
Definition link_between (m : gmap Z Z) (e : event) : Prop :=
  match e with
  | CreateLink source target _ comment =>
      source <> target
      /\ (exists sourceId, m !! sourceId = Some source)
      /\ (exists targetId, m !! targetId = Some target)
      /\ comment <> ""
  | _ => True
  end.

(** A step that, from a state with the identity map [m], completes
    normally, leaves the map as it is, and sends link requests within [m]
    only. *)
Definition links_within (m : gmap Z Z) (c : M unit) : Prop :=
  forall s,
    issueIdMap s = m ->
    exists sent,
      c s = (Normal tt, {| trace := trace s ++ sent; issueIdMap := m |})
      /\ Forall (link_between m) sent.

(** A section answers under a name by inheritance: the section is there,
    holds no entry of its own under the name, and the name is a member name
    of [Object.prototype]. *)
Definition reads_inherited (t : option (gmap string value)) (k : string) : Prop :=
  exists o, t = Some o /\ o !! k = None /\ inherited_name k = true.

(** The answer to the detail request of the record at position [k] of the
    listing, asked after the requests [sent] and the turns of the detail
    loop for the records before it. *)
Definition detail_answer (world : World) (config : Config) (issues : list Issue)
    (sent : list event) (k : nat) : option Issue :=
  issues !! k ≫= fun issue =>
    redmine_issue world (sent ++ detail_requests config (take k issues)) (id issue).

(** The records of the answered detail requests, in the order of the
    listing. *)
Definition kept_details (world : World) (config : Config) (issues : list Issue)
    (sent : list event) : list Issue :=
  omap (detail_answer world config issues sent) (seq 0 (length issues)).


(** ** Further samples *)

(** Every section present, none with an entry. *)
Definition empty_sections_config : Config :=
  {| work_item_types := Some ∅; status_mappings := Some ∅; priority_mappings := Some ∅;
     relation_mappings := Some ∅; custom_field_mappings := Some ∅;
     migration_options := no_options |}.

(** A relation table with a ["default"] entry. *)
Definition relation_default_config : Config :=
  {| work_item_types := None; status_mappings := None; priority_mappings := None;
     relation_mappings :=
       Some {[ "default" := VStr "System.LinkTypes.Dependency-Forward";
               "blocks" := VStr "System.LinkTypes.Dependency-Forward" ]};
     custom_field_mappings := None; migration_options := no_options |}.

(** A record with a custom field named like a member of [Object.prototype]. *)
Definition inherited_field_issue : Issue :=
  sample_issue 5 VUndefined VUndefined
    (Some [ {| cf_name := VStr "toString"; cf_value := VStr "x" |} ]) None None.


(** A journal entry with nothing but a note. *)
Definition note_journal : Journal :=
  {| journal_created_on := VUndefined; journal_user := None;
     notes := VStr "Done."; details := None |}.

(** Nothing set but the batch size. *)
Definition with_batch_size (n : Z) : Config :=
  {| work_item_types := None; status_mappings := None; priority_mappings := None;
     relation_mappings := None; custom_field_mappings := None;
     migration_options :=
       {| preserve_redmine_id := VUndefined; add_redmine_link := VUndefined;
          migrate_attachments := VUndefined; migrate_comments := VUndefined;
          migrate_relations := VUndefined; migrate_subtasks := VUndefined;
          delay_ms := VUndefined; batch_size := Some n |} |}.

(** Servers that answer no request. *)
Definition unreachable_world : World :=
  {| redmine_issues := fun _ _ _ => None;
     redmine_issue := fun _ _ => None;
     redmine_attachment := fun _ _ => None;
     ado_create := fun _ _ _ => None;
     ado_comment := fun _ _ _ => false;
     ado_upload := fun _ _ _ => VNull;
     ado_attach := fun _ _ _ _ => false;
     ado_link := fun _ _ _ _ _ => false |}.

(** A configuration with the comments switched off. *)
Definition without_comments (config : Config) : Config :=
  {| work_item_types := work_item_types config;
     status_mappings := status_mappings config;
     priority_mappings := priority_mappings config;
     relation_mappings := relation_mappings config;
     custom_field_mappings := custom_field_mappings config;
     migration_options :=
       {| preserve_redmine_id := preserve_redmine_id (migration_options config);
          add_redmine_link := add_redmine_link (migration_options config);
          migrate_attachments := migrate_attachments (migration_options config);
          migrate_comments := VBool false;
          migrate_relations := migrate_relations (migration_options config);
          migrate_subtasks := migrate_subtasks (migration_options config);
          delay_ms := delay_ms (migration_options config);
          batch_size := batch_size (migration_options config) |} |}.

(** * Properties *)

(** ** Field transformation *)

Lemma js_or_truthy (a b : value) : truthy b = true -> truthy (js_or a b) = true.
Proof. unfold js_or. destruct (truthy a) eqn:Ha; auto. Qed.

Lemma truthy_not_nullish (v : value) : truthy v = true -> nullish v = false.
Proof. destruct v; simpl; congruence. Qed.

Lemma nullish_not_truthy (v : value) : nullish v = true -> truthy v = false.
Proof. destruct v; simpl; congruence. Qed.

(** C9. Without a configured delay [getDelayMs] returns 100; a configured
    delay of 0 yields 100 as well; and under no configuration is the
    returned delay zero: it is always truthy. *)
Theorem getDelayMs_default_never_zero (config : Config) :
  (delay_ms (migration_options config) = VUndefined -> getDelayMs config = VNum 100)
  /\ (delay_ms (migration_options config) = VNum 0 -> getDelayMs config = VNum 100)
  /\ getDelayMs config <> VNum 0
  /\ truthy (getDelayMs config) = true.
Proof.
  unfold getDelayMs.
  repeat split.
  - intros ->. reflexivity.
  - intros ->. reflexivity.
  - intros H.
    pose proof (js_or_truthy (delay_ms (migration_options config)) (VNum 100) eq_refl) as T.
    rewrite H in T. discriminate T.
  - apply js_or_truthy. reflexivity.
Qed.

Lemma getDelayMs_default_never_zero_witness :
  getDelayMs (with_delay (VNum 0)) = VNum 100.
Proof.
  destruct (getDelayMs_default_never_zero (with_delay (VNum 0))) as (_ & Hzero & _).
  apply Hzero. reflexivity.
Defined.






(** *** Scalar field copy *)

Lemma lookup_set_if_ne (g : bool) (k k' : string) (v : value) (m : gmap string value) :
  k' <> k -> set_if g k' v m !! k = m !! k.
Proof. intros H. unfold set_if. destruct g; [apply lookup_insert_ne; exact H | reflexivity]. Qed.

Lemma lookup_set_if_eq (g : bool) (k : string) (v : value) (m : gmap string value) :
  set_if g k v m !! k = if g then Some v else m !! k.
Proof. unfold set_if. destruct g; [apply lookup_insert_eq | reflexivity]. Qed.

(** One turn of the custom field loop writes the value of the field under
    its target, if it has one. *)
Lemma copy_custom_field_target (config : Config) (fields : gmap string value)
    (customField : CustomField) :
  copy_custom_field config fields customField
  = match custom_target config customField with
    | Some k => <[k := cf_value customField]> fields
    | None => fields
    end.
Proof.
  unfold copy_custom_field, custom_target, assign.
  destruct (truthy _ && truthy _); [|reflexivity].
  cbn [andb]. destruct (String.eqb _ "__proto__"); reflexivity.
Qed.

Lemma copy_custom_field_lookup (config : Config) (fields : gmap string value)
    (customField : CustomField) (k : string) :
  custom_target config customField <> Some k ->
  copy_custom_field config fields customField !! k = fields !! k.
Proof.
  rewrite copy_custom_field_target.
  destruct (custom_target config customField) as [k'|]; [|reflexivity].
  intros H. apply lookup_insert_ne. congruence.
Qed.

Lemma custom_loop_lookup (config : Config) (customFields : list CustomField) (k : string) :
  forall fields : gmap string value,
  k ∉ omap (custom_target config) customFields ->
  foldl (copy_custom_field config) fields customFields !! k = fields !! k.
Proof.
  induction customFields as [|c rest IH]; intros fields Hk; [reflexivity|].
  simpl in *. rewrite IH.
  - apply copy_custom_field_lookup. intros E. rewrite E in Hk. apply Hk. left.
  - destruct (custom_target config c); [|exact Hk].
    intros Hin. apply Hk. right. exact Hin.
Qed.

(** Read one key of the field set through the conditional assignments. *)
Ltac read_field :=
  repeat first
    [ rewrite lookup_set_if_eq
    | rewrite lookup_set_if_ne by discriminate
    | rewrite lookup_insert_eq
    | rewrite lookup_insert_ne by discriminate
    | rewrite lookup_empty ].

Lemma fields_lookup (config : Config) (url : value) (issue : Issue) (k : string) :
  k ∉ custom_targets config issue ->
  (mapRedmineIssueToAdoFields config url issue).2 !! k =
  (foldl (fun fields step => step fields) ∅
     [ insert "System.Title" (js_or (subject issue) (VStr "Untitled"));
       insert "System.Description" (VStr (compose_description config url issue));
       set_if (truthy (opt_name (status issue))) "System.State"
         (mapStatus config (opt_name (status issue))
            (mapRedmineIssueToAdoFields config url issue).1);
       set_if (truthy (opt_name (priority issue))) "Microsoft.VSTS.Common.Priority"
         (mapPriority config (opt_name (priority issue)));
       set_if (truthy (opt_name (assigned_to issue))) "System.AssignedTo"
         (opt_name (assigned_to issue));
       set_if (truthy (start_date issue)) "Microsoft.VSTS.Scheduling.StartDate"
         (start_date issue);
       set_if (truthy (due_date issue)) "Microsoft.VSTS.Scheduling.DueDate" (due_date issue);
       set_if (truthy (created_on issue)) "System.CreatedDate" (created_on issue);
       set_if (truthy (updated_on issue)) "System.ChangedDate" (updated_on issue);
       set_if (truthy (closed_on issue)) "Microsoft.VSTS.Common.ClosedDate" (closed_on issue);
       set_if (truthy (estimated_hours issue)) "Microsoft.VSTS.Scheduling.OriginalEstimate"
         (estimated_hours issue);
       set_if (negb (nullish (done_ratio issue))) "Microsoft.VSTS.Scheduling.CompletedWork"
         (done_ratio issue) ] : gmap string value) !! k.
Proof.
  intros Hk. unfold mapRedmineIssueToAdoFields, custom_targets in *. simpl.
  destruct (custom_fields issue) as [customFields|]; [|reflexivity].
  apply custom_loop_lookup. exact Hk.
Qed.

(** What the transformation holds under the key of a scalar field other
    than the title, when no custom field is written there. *)
Lemma scalar_lookup (config : Config) (url : value) (issue : Issue) (f : scalar) :
  f <> Title ->
  target_key f ∉ custom_targets config issue ->
  (mapRedmineIssueToAdoFields config url issue).2 !! target_key f =
  if match f with
     | CompletionRatio => negb (nullish (source_value f issue))
     | _ => truthy (source_value f issue)
     end
  then Some (source_value f issue) else None.
Proof.
  intros Hf Hk. rewrite fields_lookup by exact Hk. cbn [foldl].
  destruct f; try congruence; cbn [target_key source_value]; read_field; reflexivity.
Qed.


(** C3 (amended). For a scalar field other than the title, and a record
    none of whose custom fields is written to the field's key: an absent
    source value ([undefined] or [null]) leaves the field set without that
    key, and a key that is there holds the source value, which is then
    present, and non-empty too (truthy) except for the completion ratio.
    The title key is always there: the subject, or ["Untitled"] when the
    subject is absent or empty. *)
Theorem scalar_copy_only_if_present (config : Config) (url : value) (issue : Issue)
    (f : scalar) :
  target_key f ∉ custom_targets config issue ->
  let fields := (mapRedmineIssueToAdoFields config url issue).2 in
  match f with
  | Title => fields !! target_key f = Some (js_or (subject issue) (VStr "Untitled"))
  | _ =>
      (nullish (source_value f issue) = true -> fields !! target_key f = None)
      /\ (forall v, fields !! target_key f = Some v ->
            v = source_value f issue
            /\ nullish v = false
            /\ (f <> CompletionRatio -> truthy v = true))
  end.
Proof.
  intros Hk fields. subst fields.
  destruct f.
  1: { rewrite fields_lookup by exact Hk. cbn [foldl target_key]. read_field. reflexivity. }
  all: rewrite scalar_lookup; [ | discriminate | exact Hk ].
  all: split;
    [ intros Hn; first [ rewrite (nullish_not_truthy _ Hn) | rewrite Hn ]; reflexivity
    | intros v Hv ].
  all: match type of Hv with
       | (if ?g then _ else _) = _ => destruct g eqn:Hg; [|discriminate Hv]
       end.
  all: injection Hv as <-.
  all: split; [reflexivity|].
  all: split;
    [ first [ apply truthy_not_nullish; exact Hg | apply negb_true_iff; exact Hg ]
    | first [ intros _; exact Hg | congruence ] ].
Qed.

(** C10 (amended). A zero is treated asymmetrically: a record whose
    effort estimate is 0 gets no original-estimate key, and a record whose
    completion ratio is 0 gets the completed-work key with the value 0;
    each provided no custom field of the record is written to that key. *)
Theorem zero_estimate_dropped_zero_ratio_kept (config : Config) (url : value)
    (issue : Issue) :
  let fields := (mapRedmineIssueToAdoFields config url issue).2 in
  (estimated_hours issue = VNum 0 ->
   "Microsoft.VSTS.Scheduling.OriginalEstimate" ∉ custom_targets config issue ->
   fields !! "Microsoft.VSTS.Scheduling.OriginalEstimate" = None)
  /\ (done_ratio issue = VNum 0 ->
      "Microsoft.VSTS.Scheduling.CompletedWork" ∉ custom_targets config issue ->
      fields !! "Microsoft.VSTS.Scheduling.CompletedWork" = Some (VNum 0)).
Proof.
  intros fields. subst fields. split; intros Hz Hk.
  - pose proof (scalar_lookup config url issue EffortEstimate ltac:(discriminate) Hk) as E.
    cbn [target_key source_value] in E. rewrite E, Hz. reflexivity.
  - pose proof (scalar_lookup config url issue CompletionRatio ltac:(discriminate) Hk) as E.
    cbn [target_key source_value] in E. rewrite E, Hz. reflexivity.
Qed.

Lemma scalar_copy_only_if_present_witness :
  (mapRedmineIssueToAdoFields empty_config VUndefined bare_issue).2
    !! "Microsoft.VSTS.Scheduling.DueDate" = None.
Proof.
  pose proof (scalar_copy_only_if_present empty_config VUndefined bare_issue DueDate) as H.
  destruct H as [H _].
  - apply not_elem_of_nil.
  - apply H. reflexivity.
Defined.

(** C3, as stated, fails.  A record without a subject still gets the
    title key; and a record without a due date gets the due-date key when
    one of its custom fields is mapped onto it. *)
Lemma scalar_copy_title_and_custom_field :
  source_value Title bare_issue = VUndefined
  /\ (mapRedmineIssueToAdoFields empty_config VUndefined bare_issue).2
       !! target_key Title = Some (VStr "Untitled")
  /\ source_value DueDate deadline_issue = VUndefined
  /\ (mapRedmineIssueToAdoFields scheduling_config VUndefined deadline_issue).2
       !! target_key DueDate = Some (VStr "2024-06-30").
Proof. repeat split; vm_compute; reflexivity. Qed.

Lemma zero_estimate_dropped_zero_ratio_kept_witness :
  (mapRedmineIssueToAdoFields empty_config VUndefined zero_issue).2
    !! "Microsoft.VSTS.Scheduling.OriginalEstimate" = None
  /\ (mapRedmineIssueToAdoFields empty_config VUndefined zero_issue).2
       !! "Microsoft.VSTS.Scheduling.CompletedWork" = Some (VNum 0).
Proof.
  pose proof (zero_estimate_dropped_zero_ratio_kept empty_config VUndefined zero_issue)
    as [H1 H2].
  split.
  - apply H1; [reflexivity | apply not_elem_of_nil].
  - apply H2; [reflexivity | apply not_elem_of_nil].
Defined.

(** C10, as stated, fails: with custom fields mapped onto the two keys, a
    record whose estimate and ratio are 0 has the original-estimate key,
    and its completed-work key does not hold 0. *)
Lemma zero_estimate_custom_field_override :
  estimated_hours zero_issue_custom = VNum 0
  /\ done_ratio zero_issue_custom = VNum 0
  /\ (mapRedmineIssueToAdoFields scheduling_config VUndefined zero_issue_custom).2
       !! "Microsoft.VSTS.Scheduling.OriginalEstimate" = Some (VStr "8")
  /\ (mapRedmineIssueToAdoFields scheduling_config VUndefined zero_issue_custom).2
       !! "Microsoft.VSTS.Scheduling.CompletedWork" = Some (VStr "half").
Proof. repeat split; vm_compute; reflexivity. Qed.

(** ** The identity map *)

Lemma set_all_normal (puts : list (Z * Z)) :
  forall m : gmap Z Z,
  set_all m puts = Normal (foldl (fun acc put => <[put.1 := put.2]> acc) m puts).
Proof.
  induction puts as [|[k v] rest IH]; intros m; [reflexivity|].
  simpl. apply IH.
Qed.

Lemma foldl_insert_notin (puts : list (Z * Z)) (k : Z) :
  forall m : gmap Z Z,
  k ∉ puts.*1 ->
  foldl (fun acc put => <[put.1 := put.2]> acc) m puts !! k = m !! k.
Proof.
  induction puts as [|[k' v'] rest IH]; intros m Hk; [reflexivity|].
  simpl in *. apply not_elem_of_cons in Hk as [Hne Hk].
  rewrite IH by exact Hk. apply lookup_insert_ne. congruence.
Qed.

Lemma foldl_insert_distinct (puts : list (Z * Z)) (k v : Z) :
  forall m : gmap Z Z,
  NoDup puts.*1 -> (k, v) ∈ puts ->
  foldl (fun acc put => <[put.1 := put.2]> acc) m puts !! k = Some v.
Proof.
  induction puts as [|[k' v'] rest IH]; intros m Hnd Hin.
  - inversion Hin.
  - simpl in *. apply NoDup_cons in Hnd as [Hfresh Hnd].
    apply elem_of_cons in Hin as [Heq|Hin].
    + injection Heq as <- <-.
      rewrite foldl_insert_notin by exact Hfresh. apply lookup_insert_eq.
    + apply IH; assumption.
Qed.

(** C2 (amended). No insertion into the identity map fails: every
    sequence of insertions completes normally, and an insertion at a
    source id that is already present replaces its target id.  For
    insertions with distinct source ids, a lookup of an inserted id
    returns exactly the target id it was inserted with. *)
Theorem identity_map_insertions (m : gmap Z Z) (puts : list (Z * Z)) :
  exists m' : gmap Z Z,
    set_all m puts = Normal m'
    /\ (NoDup puts.*1 ->
        forall sourceId targetId, (sourceId, targetId) ∈ puts ->
          issueIdMap_get m' sourceId = Some targetId)
    /\ (forall sourceId targetId,
          exists m1 : gmap Z Z,
            issueIdMap_set m' sourceId targetId = Normal m1
            /\ issueIdMap_get m1 sourceId = Some targetId
            /\ forall other, other <> sourceId ->
                 issueIdMap_get m1 other = issueIdMap_get m' other).
Proof.
  eexists. split; [apply set_all_normal|]. split.
  - intros Hnd k v Hin. unfold issueIdMap_get.
    apply foldl_insert_distinct; assumption.
  - intros k v. eexists. split; [reflexivity|]. unfold issueIdMap_get. split.
    + apply lookup_insert_eq.
    + intros other Hne. apply lookup_insert_ne. congruence.
Qed.

Lemma identity_map_insertions_witness :
  exists m' : gmap Z Z,
    set_all ∅ [(1, 500); (2, 501)] = Normal m'
    /\ issueIdMap_get m' 1 = Some 500
    /\ issueIdMap_get m' 2 = Some 501.
Proof.
  destruct (identity_map_insertions ∅ [(1, 500); (2, 501)]) as (m' & Hrun & Hget & _).
  exists m'. split; [exact Hrun|].
  assert (Hnd : NoDup [(1, 500); (2, 501)].*1) by (simpl; apply NoDup_cons_2;
      [intros H; apply list_elem_of_singleton in H; discriminate H | apply NoDup_singleton]).
  split; apply Hget; try exact Hnd.
  - apply list_elem_of_here.
  - apply list_elem_of_further, list_elem_of_here.
Defined.

(** C2, as stated, fails: inserting a source id that is present does not
    fail; it completes normally and the new target id replaces the old. *)
Lemma identity_map_overwrites :
  issueIdMap_get {[ 1 := 500 ]} 1 = Some 500
  /\ issueIdMap_set {[ 1 := 500 ]} 1 600 = Normal {[ 1 := 600 ]}
  /\ (forall e, issueIdMap_set {[ 1 := 500 ]} 1 600 <> Throw e)
  /\ set_all ∅ [(1, 500); (1, 600)] = Normal {[ 1 := 600 ]}
  /\ issueIdMap_get {[ 1 := 600 ]} 1 = Some 600.
Proof.
  repeat split; try reflexivity. intros e. discriminate.
Qed.

(** ** Computations *)

Section Computations.

Lemma emits_ret {A} (P : event -> Prop) (a : A) : emits P (ret a).
Proof. intros s. exists []. split; [symmetry; apply app_nil_r | constructor]. Qed.

Lemma emits_lift {A} (P : event -> Prop) (c : completion A) : emits P (lift c).
Proof. intros s. exists []. split; [symmetry; apply app_nil_r | constructor]. Qed.

Lemma emits_get_map (P : event -> Prop) : emits P get_map.
Proof. intros s. exists []. split; [symmetry; apply app_nil_r | constructor]. Qed.

Lemma emits_put_map (P : event -> Prop) (m : gmap Z Z) : emits P (put_map m).
Proof. intros s. exists []. split; [symmetry; apply app_nil_r | constructor]. Qed.

Lemma emits_request {A} (P : event -> Prop) (answer : list event -> A) (e : event) :
  P e -> emits P (request answer e).
Proof. intros He s. exists [e]. split; [reflexivity | repeat constructor; exact He]. Qed.

Lemma emits_bind {A B} (P : event -> Prop) (m : M A) (k : A -> M B) :
  emits P m -> (forall a, emits P (k a)) -> emits P (bind m k).
Proof.
  intros Hm Hk s. unfold bind.
  destruct (Hm s) as (sent & Ht & HP).
  destruct (m s) as [[a|e|] s1]; simpl in *.
  - destruct (Hk a s1) as (sent' & Ht' & HP').
    exists (sent ++ sent'). split.
    + rewrite Ht', Ht. symmetry. apply app_assoc.
    + apply Forall_app. split; assumption.
  - exists sent. split; assumption.
  - exists sent. split; assumption.
Qed.

Lemma emits_when (P : event -> Prop) (c : bool) (body : M unit) :
  emits P body -> emits P (when c body).
Proof. intros H. destruct c; [exact H | apply emits_ret]. Qed.

Lemma emits_for_each {A} (P : event -> Prop) (l : list A) (body : A -> M unit) :
  (forall x, emits P (body x)) -> emits P (for_each l body).
Proof.
  intros H. induction l as [|x rest IH]; simpl.
  - apply emits_ret.
  - apply emits_bind; [apply H | intros _; exact IH].
Qed.

Lemma keeps_map_ret {A} (a : A) : keeps_map (ret a).
Proof. intros s. reflexivity. Qed.

Lemma keeps_map_request {A} (answer : list event -> A) (e : event) :
  keeps_map (request answer e).
Proof. intros s. reflexivity. Qed.

Lemma keeps_map_get_map : keeps_map get_map.
Proof. intros s. reflexivity. Qed.

Lemma keeps_map_bind {A B} (m : M A) (k : A -> M B) :
  keeps_map m -> (forall a, keeps_map (k a)) -> keeps_map (bind m k).
Proof.
  intros Hm Hk s. unfold bind. specialize (Hm s).
  destruct (m s) as [[a|e|] s1]; simpl in *; try exact Hm.
  rewrite Hk. exact Hm.
Qed.

Lemma keeps_map_when (c : bool) (body : M unit) :
  keeps_map body -> keeps_map (when c body).
Proof. intros H. destruct c; [exact H | apply keeps_map_ret]. Qed.

Lemma keeps_map_for_each {A} (l : list A) (body : A -> M unit) :
  (forall x, keeps_map (body x)) -> keeps_map (for_each l body).
Proof.
  intros H. induction l as [|x rest IH]; simpl.
  - apply keeps_map_ret.
  - apply keeps_map_bind; [apply H | intros _; exact IH].
Qed.

Lemma for_each_app {A} (l1 l2 : list A) (body : A -> M unit) (s : State) :
  for_each (l1 ++ l2) body s = (for_each l1 body >> for_each l2 body) s.
Proof.
  revert s. induction l1 as [|x rest IH]; intros s; simpl.
  - reflexivity.
  - unfold bind in *. destruct (body x s) as [[[]|e|] s1]; try reflexivity.
    apply IH.
Qed.

Lemma bind_run {A B} (m : M A) (k : A -> M B) (s : State) :
  bind m k s =
  match m s with
  | (Normal a, s') => k a s'
  | (Throw e, s') => (Throw e, s')
  | (Unfinished, s') => (Unfinished, s')
  end.
Proof. reflexivity. Qed.

Lemma emits_impl {A} (P Q : event -> Prop) (m : M A) :
  (forall e, P e -> Q e) -> emits P m -> emits Q m.
Proof.
  intros HPQ Hm s. destruct (Hm s) as (sent & Ht & HP).
  exists sent. split; [exact Ht|]. eapply Forall_impl; eauto.
Qed.

Lemma emits_from_clean {A} (P : event -> Prop) (m : M A) (s : State) :
  emits P m -> Forall P (trace s) -> Forall P (trace (m s).2).
Proof.
  intros Hm Hs. destruct (Hm s) as (sent & -> & Hsent).
  apply Forall_app. split; assumption.
Qed.

End Computations.

Create HintDb keeps_map.
#[export] Hint Resolve keeps_map_ret keeps_map_request keeps_map_get_map keeps_map_when
  keeps_map_for_each : keeps_map.

(** ** Typed links *)

Section LinkFacts.

Context (world : World).
Context (config : Config).

(** C6. [createLink] from a work item to itself sends no request, so it
    creates no link, and it reports failure, whatever the link kind and
    the comment. *)
Theorem createLink_self_rejected (x : Z) (linkType : value) (comment : string) (s : State) :
  createLink world x x linkType comment s = (Normal false, s).
Proof. unfold createLink. rewrite Z.eqb_refl. reflexivity. Qed.

Lemma keeps_map_createLink (source target : Z) (linkType : value) (comment : string) :
  keeps_map (createLink world source target linkType comment).
Proof.
  unfold createLink. destruct (source =? target); auto with keeps_map.
Qed.

Lemma keeps_map_migrate_relation (source : Z) (relation : Relation) :
  keeps_map (migrate_relation world config source relation).
Proof.
  unfold migrate_relation.
  apply keeps_map_bind; [apply keeps_map_get_map|]. intros m.
  destruct (issueIdMap_get_value m (targetRedmineId relation)); [|apply keeps_map_ret].
  apply keeps_map_when, keeps_map_bind; [apply keeps_map_createLink|].
  intros _. apply keeps_map_request.
Qed.

Lemma migrate_relation_absent (source : Z) (relation : Relation) (s : State) :
  issueIdMap_get_value (issueIdMap s) (targetRedmineId relation) = None ->
  migrate_relation world config source relation s = (Normal tt, s).
Proof.
  intros H. unfold migrate_relation, bind, get_map. rewrite H. reflexivity.
Qed.

(** C7. A relation whose target id has no entry in the identity map is
    dropped: its turn of the loop completes normally, sends no request
    (so creates no link) and changes nothing, and the loop over the
    record's relations goes on exactly as if the relation were not there. *)
Theorem relation_drop (source : Z) (relation : Relation) (s : State) :
  issueIdMap_get_value (issueIdMap s) (targetRedmineId relation) = None ->
  migrate_relation world config source relation s = (Normal tt, s)
  /\ forall before after : list Relation,
       for_each (before ++ relation :: after) (migrate_relation world config source) s
       = for_each (before ++ after) (migrate_relation world config source) s.
Proof.
  intros H. split; [apply migrate_relation_absent; exact H|].
  intros before after. rewrite !for_each_app. unfold bind at 1 2.
  pose proof (keeps_map_for_each before _ (keeps_map_migrate_relation source) s) as Hmap.
  destruct (for_each before (migrate_relation world config source) s) as [[[]|e|] s1];
    try reflexivity.
  simpl in Hmap. simpl. unfold bind at 1.
  rewrite migrate_relation_absent by (rewrite Hmap; exact H).
  reflexivity.
Qed.


(** A relation resolved to the record's own id: [createLink] rejects the
    self link, and the pacing delay follows all the same. *)
Lemma migrate_relation_self (source n : Z) (relation : Relation) (s : State) :
  targetRedmineId relation = VNum n ->
  issueIdMap_get (issueIdMap s) n = Some source ->
  source <> 0 ->
  migrate_relation world config source relation s =
  (Normal tt, {| trace := trace s ++ [Delay (getDelayMs config)];
                 issueIdMap := issueIdMap s |}).
Proof.
  intros Ht Hn Hs. unfold migrate_relation, bind, get_map.
  rewrite Ht. simpl. rewrite Hn. simpl.
  apply Z.eqb_neq in Hs. rewrite Hs. simpl.
  unfold bind. unfold createLink. rewrite Z.eqb_refl. reflexivity.
Qed.

(** C1. Where the code parts from the claim: a relation that names the
    current record in the "from" position ([issue_id]) is resolved through
    the record's own id, not through the other endpoint; the link is then
    a self link, which [createLink] rejects, so no link is created, even
    when the other endpoint is in the identity map. *)
Theorem relation_from_position_resolves_self (source n : Z) (relation : Relation)
    (s : State) :
  issue_id relation = VNum n ->
  n <> 0 ->
  issueIdMap_get (issueIdMap s) n = Some source ->
  source <> 0 ->
  targetRedmineId relation = VNum n
  /\ migrate_relation world config source relation s =
     (Normal tt, {| trace := trace s ++ [Delay (getDelayMs config)];
                    issueIdMap := issueIdMap s |}).
Proof.
  intros Hid Hn Hget Hs.
  assert (Ht : targetRedmineId relation = VNum n).
  { unfold targetRedmineId, js_or. rewrite Hid. simpl.
    apply Z.eqb_neq in Hn. rewrite Hn. reflexivity. }
  split; [exact Ht|]. apply (migrate_relation_self source n); assumption.
Qed.

(** The other reading of a relation's target, the endpoint that is not
    the record itself: when that endpoint has no entry in the identity
    map, the relation's turn completes normally and creates no link. *)
Lemma relation_drop_other_endpoint (source n : Z) (other : value) (relation : Relation)
    (s : State) :
  issueIdMap_get (issueIdMap s) n = Some source ->
  source <> 0 ->
  (issue_id relation = VNum n /\ issue_to_id relation = other
   \/ issue_id relation = other /\ issue_to_id relation = VNum n) ->
  issueIdMap_get_value (issueIdMap s) other = None ->
  exists sent,
    migrate_relation world config source relation s =
    (Normal tt, {| trace := trace s ++ sent; issueIdMap := issueIdMap s |})
    /\ Forall (fun e => is_link e = false) sent.
Proof.
  intros Hn Hs Hends Hother.
  assert (Hcases :
    issueIdMap_get_value (issueIdMap s) (targetRedmineId relation) = None
    \/ targetRedmineId relation = VNum n).
  { unfold targetRedmineId, js_or.
    destruct Hends as [[Ha Hb]|[Ha Hb]]; rewrite Ha, Hb;
      destruct (truthy _); auto. }
  destruct Hcases as [Habsent|Hself].
  - exists []. split; [|constructor].
    rewrite migrate_relation_absent by exact Habsent.
    destruct s; simpl. rewrite app_nil_r. reflexivity.
  - exists [Delay (getDelayMs config)]. split; [|repeat constructor].
    apply (migrate_relation_self source n); assumption.
Qed.

End LinkFacts.

(** *** A sample run: two related records *)

Lemma relation_drop_witness :
  migrate_relation sample_world empty_config 501 blocks_999_1 both_migrated
  = (Normal tt, both_migrated)
  /\ for_each [blocks_999_1; relates_1_2] (migrate_relation sample_world empty_config 501)
       both_migrated
     = for_each [relates_1_2] (migrate_relation sample_world empty_config 501) both_migrated.
Proof.
  destruct (relation_drop sample_world empty_config 501 blocks_999_1 both_migrated)
    as [Hstep Hloop].
  - reflexivity.
  - split; [exact Hstep | exact (Hloop [] [relates_1_2])].
Defined.

Lemma relation_from_position_resolves_self_witness :
  issueIdMap_get (issueIdMap both_migrated) 2 = Some 502
  /\ targetRedmineId relates_1_2 = VNum 1
  /\ migrate_relation sample_world empty_config 501 relates_1_2 both_migrated
     = (Normal tt, {| trace := [Delay (VNum 100)]; issueIdMap := {[ 1 := 501; 2 := 502 ]} |}).
Proof.
  split; [reflexivity|].
  apply (relation_from_position_resolves_self sample_world empty_config 501 1
           relates_1_2 both_migrated).
  - reflexivity.
  - lia.
  - reflexivity.
  - lia.
Defined.

(** The relation phase over record 1 alone, with both records migrated:
    the relation to record 2 yields no link request. *)
Example migrateRelations_from_position :
  (migrateRelations sample_world empty_config [issue_1] both_migrated).2
  = {| trace := [Delay (VNum 100)]; issueIdMap := {[ 1 := 501; 2 := 502 ]} |}.
Proof. vm_compute. reflexivity. Qed.

(** Over record 2, which the same relation names in the "to" position,
    the link is created, from 502 to 501. *)
Example migrateRelations_to_position :
  trace (migrateRelations sample_world empty_config [issue_2] both_migrated).2
  = [ CreateLink 502 501 (VStr "System.LinkTypes.Hierarchy-Reverse")
        "Parent-Child relationship from Redmine";
      Delay (VNum 100);
      CreateLink 502 501 (VStr "System.LinkTypes.Related") "relates relationship from Redmine";
      Delay (VNum 100) ].
Proof. vm_compute. reflexivity. Qed.

(** ** The paginated fetch *)

Section GetAllIssuesFacts.

Context (world : World).
Context (projectIdentifier : value).
(** the state in which [getAllIssues] is called *)
Context (s0 : State).

Lemma first_stop_unique (k k' : nat) :
  first_stop world projectIdentifier s0 k ->
  first_stop world projectIdentifier s0 k' ->
  k = k'.
Proof.
  intros [Hk Hbefore] [Hk' Hbefore'].
  destruct (Nat.lt_trichotomy k k') as [H|[H|H]]; [|exact H|].
  - rewrite (Hbefore' k H) in Hk. discriminate Hk.
  - rewrite (Hbefore k' H) in Hk'. discriminate Hk'.
Qed.

Lemma getAllIssues_loop_turn (fuel k : nat) :
  getAllIssues_loop world (S fuel) (request_project_id projectIdentifier)
    (collected world projectIdentifier s0 k) (100 * Z.of_nat k)
    (at_turn projectIdentifier s0 k)
  = if stops world projectIdentifier s0 k
    then (Normal (collected world projectIdentifier s0 (S k)),
          {| trace := trace s0 ++ turns_sent projectIdentifier k
                        ++ [GetIssues (request_project_id projectIdentifier) (100 * Z.of_nat k)];
             issueIdMap := issueIdMap s0 |})
    else getAllIssues_loop world fuel (request_project_id projectIdentifier)
           (collected world projectIdentifier s0 (S k))
           (100 * Z.of_nat (S k)) (at_turn projectIdentifier s0 (S k)).
Proof.
  unfold stops, fetch_failed, short_page, total_reached.
  cbn [getAllIssues_loop collected]. unfold page_issues.
  unfold bind at 1. unfold request at 1. cbn [trace issueIdMap at_turn].
  fold (page_response world projectIdentifier s0 k).
  destruct (page_response world projectIdentifier s0 k) as [data|]; cbn [orb].
  - rewrite <- (app_assoc (trace s0)).
    destruct (_ || _); [reflexivity|].
    unfold bind, redmine_delay, request, js_or. cbn [truthy Z.eqb negb trace issueIdMap].
    unfold at_turn. cbn [turns_sent].
    rewrite <- !app_assoc. cbn [app].
    replace (100 * Z.of_nat k + 100) with (100 * Z.of_nat (S k)) by lia.
    reflexivity.
  - unfold ret. rewrite app_nil_r, <- app_assoc. reflexivity.
Qed.

Lemma getAllIssues_loop_result (fuel : nat) :
  forall (k : nat) (result : list Issue),
  (forall j, (j < k)%nat -> stops world projectIdentifier s0 j = false) ->
  (getAllIssues_loop world fuel (request_project_id projectIdentifier)
     (collected world projectIdentifier s0 k) (100 * Z.of_nat k)
     (at_turn projectIdentifier s0 k)).1 = Normal result
  <-> exists k',
        (k <= k' < k + fuel)%nat
        /\ first_stop world projectIdentifier s0 k'
        /\ result = collected world projectIdentifier s0 (S k').
Proof.
  induction fuel as [|fuel IH]; intros k result Hbefore.
  - split; [intros H; discriminate H | intros (k' & Hk' & _); lia].
  - rewrite getAllIssues_loop_turn. destruct (stops world projectIdentifier s0 k) eqn:Hk.
    + cbn [fst]. split.
      * intros H. injection H as <-. exists k. repeat split; [lia|lia|exact Hk|exact Hbefore].
      * intros (k' & _ & Hfirst & ->).
        rewrite (first_stop_unique k k'); [reflexivity| |exact Hfirst].
        split; [exact Hk | exact Hbefore].
    + assert (Hbefore' : forall j, (j < S k)%nat -> stops world projectIdentifier s0 j = false).
      { intros j Hj. destruct (decide (j = k)) as [->|Hne]; [exact Hk|].
        apply Hbefore. lia. }
      rewrite (IH (S k) result Hbefore'). split.
      * intros (k' & Hk' & Hrest). exists k'. split; [lia | exact Hrest].
      * intros (k' & Hk' & Hfirst & Hr). exists k'.
        split; [|split; assumption].
        destruct (decide (k' = k)) as [->|Hne]; [|lia].
        destruct Hfirst as [Hstop _]. rewrite Hstop in Hk. discriminate Hk.
Qed.

Lemma first_stop_search (n : nat) :
  (forall j, (j < n)%nat -> stops world projectIdentifier s0 j = false)
  \/ exists k', (k' < n)%nat /\ first_stop world projectIdentifier s0 k'.
Proof.
  induction n as [|n [IH|(k' & Hk' & Hfirst)]].
  - left. intros j Hj. lia.
  - destruct (stops world projectIdentifier s0 n) eqn:Hn.
    + right. exists n. split; [lia|]. split; assumption.
    + left. intros j Hj. destruct (decide (j = n)) as [->|Hne]; [exact Hn|].
      apply IH. lia.
  - right. exists k'. split; [lia | exact Hfirst].
Qed.

Lemma first_stop_exists (k : nat) :
  stops world projectIdentifier s0 k = true ->
  exists k', (k' <= k)%nat /\ first_stop world projectIdentifier s0 k'.
Proof.
  intros Hk. destruct (first_stop_search (S k)) as [Hnone|(k' & Hk' & Hfirst)].
  - rewrite Hnone in Hk by lia. discriminate Hk.
  - exists k'. split; [lia | exact Hfirst].
Qed.

(** C8 (amended). [getAllIssues] returns exactly when some turn of its
    loop ends it: the page request fails, or the page holds fewer than 100
    records, or the count of records collected reaches the total the page
    reports.  It then returns the concatenation of the pages fetched up to
    the first such turn (a failed request adds none).  If some turn ends
    the loop, the call returns. *)
Theorem getAllIssues_terminates_at_first_stop :
  (forall (fuel : nat) (result : list Issue),
     (getAllIssues world fuel projectIdentifier s0).1 = Normal result
     <-> exists k,
           (k < fuel)%nat
           /\ first_stop world projectIdentifier s0 k
           /\ result = collected world projectIdentifier s0 (S k))
  /\ ((exists k, stops world projectIdentifier s0 k = true) ->
      exists (fuel : nat) (result : list Issue),
        (getAllIssues world fuel projectIdentifier s0).1 = Normal result).
Proof.
  assert (Hstart : forall fuel,
    getAllIssues world fuel projectIdentifier s0
    = getAllIssues_loop world fuel (request_project_id projectIdentifier)
        (collected world projectIdentifier s0 0) (100 * Z.of_nat 0)
        (at_turn projectIdentifier s0 0)).
  { intros fuel. unfold getAllIssues, at_turn. cbn [turns_sent collected].
    rewrite app_nil_r. destruct s0. reflexivity. }
  assert (Hiff : forall (fuel : nat) (result : list Issue),
     (getAllIssues world fuel projectIdentifier s0).1 = Normal result
     <-> exists k,
           (k < fuel)%nat
           /\ first_stop world projectIdentifier s0 k
           /\ result = collected world projectIdentifier s0 (S k)).
  { intros fuel result. rewrite Hstart, getAllIssues_loop_result by (intros j Hj; lia).
    split; intros (k & Hk & Hrest); exists k; (split; [lia | exact Hrest]). }
  split; [exact Hiff|].
  intros (k & Hk). destruct (first_stop_exists k Hk) as (k' & _ & Hfirst).
  exists (S k'), (collected world projectIdentifier s0 (S k')). apply Hiff. exists k'.
  split; [lia | split; [exact Hfirst | reflexivity]].
Qed.

End GetAllIssuesFacts.

Lemma getAllIssues_terminates_at_first_stop_witness :
  (getAllIssues sample_world 1 VNull initial).1 = Normal [issue_1; issue_2].
Proof.
  destruct (getAllIssues_terminates_at_first_stop sample_world VNull initial) as [Hiff _].
  apply Hiff. exists 0%nat. split; [lia|]. split; [|reflexivity].
  split; [reflexivity | intros j Hj; lia].
Defined.

(** C8, as stated, fails: the call also returns when a page request
    fails.  Here it returns the 100 records of the first page although that
    page was not short and the count never reached the reported total of
    250: the second request failed. *)
Lemma getAllIssues_returns_on_failed_request :
  (getAllIssues failing_world 2 VNull initial).1 = Normal (replicate 100 bare_issue)
  /\ short_page failing_world VNull initial 0 = false
  /\ total_reached failing_world VNull initial 0 = false
  /\ page_response failing_world VNull initial 1 = None.
Proof. repeat split; vm_compute; reflexivity. Qed.

(** ** The phases of a full-batch run *)

Section PhaseFacts.

Context (world : World).
Context (project : string).
Context (config : Config).
Context (REDMINE_URL : value).
Context (project_identifier : value).
Context (toISOString : value -> completion string).

(** Unfold the client methods and step through a computation. *)
Ltac emits_steps :=
  unfold createWorkItem, addComment, uploadAttachment, attachFileToWorkItem, createLink,
    getIssueDetails, getAttachmentContent, redmine_delay, delay;
  repeat first
    [ apply emits_ret
    | apply emits_lift
    | apply emits_get_map
    | apply emits_put_map
    | apply emits_request; reflexivity
    | apply emits_when
    | apply emits_for_each; intros ?
    | apply emits_bind; [|intros ?]
    | match goal with
      | |- emits _ (match ?x with _ => _ end) => destruct x
      end ].

Lemma extra_not_link (e : event) : is_extra e = true -> is_link e = false.
Proof. destruct e; cbv; intros H; congruence. Qed.

Lemma extra_not_create (e : event) : is_extra e = true -> is_create e = false.
Proof. destruct e; cbv; intros H; congruence. Qed.

Lemma creations_app (l1 l2 : list event) : creations (l1 ++ l2) = creations l1 ++ creations l2.
Proof. apply List.filter_app. Qed.

Lemma creations_none (sent : list event) :
  Forall (fun e => is_create e = false) sent -> creations sent = [].
Proof.
  induction 1 as [|e sent He _ IH]; [reflexivity|].
  unfold creations in *. simpl. rewrite He. exact IH.
Qed.

Lemma creations_extra (sent : list event) :
  Forall (fun e => is_extra e = true) sent -> creations sent = [].
Proof.
  intros H. apply creations_none. eapply Forall_impl; [exact H|]. apply extra_not_create.
Qed.

(** What follows the creation request in [migrateIssue]. *)
Lemma emits_migrate_extras (issue : Issue) (workItemId : Z) :
  emits (fun e => is_extra e = true)
    (let* m := get_map in
     let* m' := lift (issueIdMap_set m (id issue) workItemId) in
     put_map m' >>
     when (shouldMigrateComments config && non_empty (journals issue))
       (migrateComments world config toISOString (default [] (journals issue)) workItemId) >>
     when (shouldMigrateAttachments config && non_empty (attachments issue))
       (migrateAttachments world config (default [] (attachments issue)) workItemId) >>
     ret (Some workItemId)).
Proof. unfold migrateComments, migrateAttachments. emits_steps. Qed.

(** [migrateIssue] sends the creation request of its record first, and
    then neither a creation nor a link request. *)
Lemma migrateIssue_requests (issue : Issue) (s : State) :
  exists extras,
    trace (migrateIssue world project config REDMINE_URL toISOString issue s).2
    = trace s ++ creation_request project config REDMINE_URL issue :: extras
    /\ Forall (fun e => is_extra e = true) extras.
Proof.
  unfold migrateIssue, creation_request. cbv zeta.
  set (mapped := mapRedmineIssueToAdoFields config REDMINE_URL issue).
  rewrite bind_run. unfold createWorkItem at 1. unfold request at 1.
  match goal with
  | |- context [ado_create ?w ?t ?a ?b] => destruct (ado_create w t a b) as [workItemId|]
  end.
  - match goal with
    | |- context [trace (?m ?s1).2] =>
        destruct (emits_migrate_extras issue workItemId s1) as (extras & Ht & Hextras)
    end.
    exists extras. split; [|exact Hextras].
    rewrite Ht. cbn [trace]. rewrite <- app_assoc. reflexivity.
  - exists []. split; [reflexivity | constructor].
Qed.

Lemma emits_migrateIssue (issue : Issue) :
  emits (fun e => is_link e = false)
    (migrateIssue world project config REDMINE_URL toISOString issue).
Proof.
  intros s. destruct (migrateIssue_requests issue s) as (extras & Ht & Hextras).
  exists (creation_request project config REDMINE_URL issue :: extras). split; [exact Ht|].
  constructor; [reflexivity|].
  eapply Forall_impl; [exact Hextras | apply extra_not_link].
Qed.

Lemma emits_fetch_details (issues : list Issue) :
  forall detailedIssues,
  emits (fun e => is_extra e = true) (fetch_details world config issues detailedIssues).
Proof.
  induction issues as [|issue rest IH]; intros detailedIssues; simpl.
  - apply emits_ret.
  - emits_steps; apply IH.
Qed.

Lemma emits_getAllIssues_loop (fuel : nat) :
  forall project_id allIssues offset,
  emits (fun e => is_extra e = true)
    (getAllIssues_loop world fuel project_id allIssues offset).
Proof.
  induction fuel as [|fuel IH]; intros project_id allIssues offset; simpl.
  - apply emits_lift.
  - emits_steps. apply IH.
Qed.

Lemma emits_batch_loop (fuel : nat) (detailedIssues : list Issue) (batchSize : Z) :
  forall i,
  emits (fun e => is_link e = false)
    (batch_loop world project config REDMINE_URL toISOString fuel detailedIssues batchSize i).
Proof.
  induction fuel as [|fuel IH]; intros i; simpl.
  - apply emits_lift.
  - destruct (i <? Z.of_nat (length detailedIssues)); [|apply emits_ret].
    apply emits_bind; [|intros _; apply IH].
    apply emits_for_each. intros issue.
    apply emits_bind; [apply emits_migrateIssue|]. intros _. emits_steps.
Qed.

Lemma emits_migrateRelations (redmineIssues : list Issue) :
  emits (fun e => is_create e = false) (migrateRelations world config redmineIssues).
Proof.
  unfold migrateRelations, migrate_relations_of, migrate_parent, migrate_relation.
  emits_steps.
Qed.

(** The body of the batch loop for one record: the creation requests it
    adds are exactly the record's own. *)
Lemma migrate_one_creations (issue : Issue) (s : State) :
  exists sent,
    trace ((migrateIssue world project config REDMINE_URL toISOString issue
              >> delay (getDelayMs config)) s).2 = trace s ++ sent
    /\ creations sent = [creation_request project config REDMINE_URL issue].
Proof.
  rewrite bind_run.
  destruct (migrateIssue_requests issue s) as (extras & Ht & Hextras).
  destruct (migrateIssue world project config REDMINE_URL toISOString issue s)
    as [[o|e|] s1]; cbn [snd] in *.
  - exists (creation_request project config REDMINE_URL issue
              :: extras ++ [Delay (getDelayMs config)]).
    split.
    + cbn [delay request snd trace]. rewrite Ht, <- app_assoc. reflexivity.
    + change (creation_request project config REDMINE_URL issue
                :: extras ++ [Delay (getDelayMs config)])
        with ([creation_request project config REDMINE_URL issue]
                ++ extras ++ [Delay (getDelayMs config)]).
      rewrite !creations_app, (creations_extra extras Hextras). reflexivity.
  - exists (creation_request project config REDMINE_URL issue :: extras). split; [exact Ht|].
    change (creation_request project config REDMINE_URL issue :: extras)
      with ([creation_request project config REDMINE_URL issue] ++ extras).
    rewrite creations_app, (creations_extra extras Hextras). reflexivity.
  - exists (creation_request project config REDMINE_URL issue :: extras). split; [exact Ht|].
    change (creation_request project config REDMINE_URL issue :: extras)
      with ([creation_request project config REDMINE_URL issue] ++ extras).
    rewrite creations_app, (creations_extra extras Hextras). reflexivity.
Qed.

Lemma for_each_migrateIssue_creations (batch : list Issue) :
  forall s s',
  for_each batch (fun issue =>
    migrateIssue world project config REDMINE_URL toISOString issue
      >> delay (getDelayMs config)) s = (Normal tt, s') ->
  exists sent,
    trace s' = trace s ++ sent
    /\ creations sent = map (creation_request project config REDMINE_URL) batch.
Proof.
  induction batch as [|issue rest IH]; intros s s' Hrun.
  - injection Hrun as <-. exists []. split; [symmetry; apply app_nil_r | reflexivity].
  - simpl in Hrun. rewrite bind_run in Hrun.
    destruct (migrate_one_creations issue s) as (sent1 & Ht1 & Hc1).
    destruct ((migrateIssue world project config REDMINE_URL toISOString issue
                 >> delay (getDelayMs config)) s) as [[[]|e|] s1];
      try discriminate Hrun.
    cbn [snd] in Ht1.
    destruct (IH s1 s' Hrun) as (sent2 & Ht2 & Hc2).
    exists (sent1 ++ sent2). split.
    + rewrite Ht2, Ht1. symmetry. apply app_assoc.
    + rewrite creations_app, Hc1, Hc2. reflexivity.
Qed.

Lemma js_slice_batch {A} (l : list A) (i batchSize : Z) :
  0 <= i < Z.of_nat (length l) -> 0 < batchSize ->
  js_slice l i (i + batchSize) = take (Z.to_nat batchSize) (drop (Z.to_nat i) l).
Proof.
  intros Hi Hb. unfold js_slice.
  destruct (Z.ltb_spec i 0) as [?|_]; [lia|].
  destruct (Z.ltb_spec (i + batchSize) 0) as [?|_]; [lia|].
  rewrite (Z.min_l i) by lia.
  destruct (Z.min_spec (i + batchSize) (Z.of_nat (length l))) as [[_ ->]|[Hge ->]].
  - f_equal. lia.
  - rewrite !take_ge; [reflexivity| |]; rewrite length_drop; lia.
Qed.

(** A batch loop that ran to its end from index [i] with a positive step
    sent the creation request of every record from [i] on, once, in order. *)
Lemma batch_loop_creations (fuel : nat) (detailedIssues : list Issue) (batchSize : Z) :
  0 < batchSize ->
  forall i s s',
  0 <= i ->
  batch_loop world project config REDMINE_URL toISOString fuel detailedIssues batchSize i s
  = (Normal tt, s') ->
  exists sent,
    trace s' = trace s ++ sent
    /\ creations sent
       = map (creation_request project config REDMINE_URL) (drop (Z.to_nat i) detailedIssues).
Proof.
  intros Hb. induction fuel as [|fuel IH]; intros i s s' Hi Hrun.
  - discriminate Hrun.
  - simpl in Hrun.
    destruct (Z.ltb_spec i (Z.of_nat (length detailedIssues))) as [Hlt|Hge].
    + rewrite bind_run in Hrun.
      match type of Hrun with
      | context [for_each ?b ?f s] =>
          destruct (for_each b f s) as [[[]|e|] s1] eqn:Hbatch
      end; try discriminate Hrun.
      rewrite js_slice_batch in Hbatch by lia.
      destruct (for_each_migrateIssue_creations _ s s1 Hbatch) as (sent1 & Ht1 & Hc1).
      destruct (IH (i + batchSize) s1 s' ltac:(lia) Hrun) as (sent2 & Ht2 & Hc2).
      exists (sent1 ++ sent2). split.
      * rewrite Ht2, Ht1. symmetry. apply app_assoc.
      * rewrite creations_app, Hc1, Hc2, <- map_app. f_equal.
        replace (Z.to_nat (i + batchSize)) with (Z.to_nat i + Z.to_nat batchSize)%nat by lia.
        rewrite <- drop_drop. apply take_drop.
    + injection Hrun as <-. exists []. split; [symmetry; apply app_nil_r|].
      rewrite drop_ge by lia. reflexivity.
Qed.

(** With a negative step the index never reaches the length. *)
Lemma batch_loop_negative (fuel : nat) (detailedIssues : list Issue) (batchSize : Z) :
  batchSize < 0 ->
  forall i s,
  i < Z.of_nat (length detailedIssues) ->
  (batch_loop world project config REDMINE_URL toISOString fuel detailedIssues batchSize i s).1
  <> Normal tt.
Proof.
  intros Hb. induction fuel as [|fuel IH]; intros i s Hi.
  - discriminate.
  - simpl. destruct (Z.ltb_spec i (Z.of_nat (length detailedIssues))) as [_|?]; [|lia].
    rewrite bind_run.
    match goal with
    | |- context [for_each ?b ?f s] => destruct (for_each b f s) as [[[]|e|] s1]
    end; try discriminate.
    apply IH. lia.
Qed.

Lemma getBatchSize_nonzero : getBatchSize config <> 0.
Proof.
  unfold getBatchSize. destruct (batch_size (migration_options config)) as [n|]; [|lia].
  destruct (Z.eqb_spec n 0); lia.
Qed.

Lemma batch_loop_all_creations (fuel : nat) (detailedIssues : list Issue) (s s' : State) :
  batch_loop world project config REDMINE_URL toISOString fuel detailedIssues
    (getBatchSize config) 0 s = (Normal tt, s') ->
  exists sent,
    trace s' = trace s ++ sent
    /\ creations sent = map (creation_request project config REDMINE_URL) detailedIssues.
Proof.
  intros Hrun.
  destruct (Z.lt_trichotomy (getBatchSize config) 0) as [Hneg|[Hzero|Hpos]].
  - destruct detailedIssues as [|y rest].
    + destruct fuel; [discriminate Hrun|]. injection Hrun as <-.
      exists []. split; [symmetry; apply app_nil_r | reflexivity].
    + exfalso.
      apply (batch_loop_negative fuel (y :: rest) (getBatchSize config) Hneg 0 s).
      * simpl. lia.
      * rewrite Hrun. reflexivity.
  - exfalso. apply getBatchSize_nonzero. exact Hzero.
  - apply (batch_loop_creations fuel detailedIssues (getBatchSize config) Hpos 0 s s');
      [lia | exact Hrun].
Qed.

(** A list that starts with link-free requests and is cut at a link
    request: the cut falls after the link-free part. *)
Lemma cut_at_link (clean rest t1 t2 : list event) (e : event) :
  Forall (fun e => is_link e = false) clean ->
  is_link e = true ->
  clean ++ rest = t1 ++ e :: t2 ->
  exists mid, t1 = clean ++ mid /\ rest = mid ++ e :: t2.
Proof.
  revert t1. induction clean as [|c clean IH]; intros t1 Hclean He Heq.
  - exists t1. split; [reflexivity | exact Heq].
  - apply Forall_cons in Hclean as [Hc Hclean].
    destruct t1 as [|x t1]; simpl in Heq.
    + injection Heq as -> _. rewrite He in Hc. discriminate Hc.
    + injection Heq as -> Heq.
      destruct (IH t1 Hclean He Heq) as (mid & -> & ->).
      exists mid. split; reflexivity.
Qed.

Lemma no_link_in_clean (sent t1 t2 : list event) (e : event) :
  Forall (fun e => is_link e = false) sent ->
  is_link e = true ->
  sent = t1 ++ e :: t2 -> False.
Proof.
  intros Hclean He ->. apply Forall_app in Hclean as [_ Hclean].
  apply Forall_cons in Hclean as [Hc _]. rewrite He in Hc. discriminate Hc.
Qed.

(** The shape of the requests of a full-batch run.  Either no link request
    was sent at all; or the run reached the relation phase, and then the
    requests are those up to the end of the node-creation phase, which
    hold no link request and exactly the creation requests of the fetched
    records, in order, followed by requests that create no node. *)
Lemma migrateAllIssues_phases (fuel : nat) :
  let sent :=
    trace (migrateAllIssues world project config REDMINE_URL project_identifier
             toISOString fuel initial).2 in
  Forall (fun e => is_link e = false) sent
  \/ exists nodes links,
       sent = nodes ++ links
       /\ Forall (fun e => is_link e = false) nodes
       /\ creations nodes
          = map (creation_request project config REDMINE_URL)
              (fetched_records world config project_identifier fuel)
       /\ Forall (fun e => is_create e = false) links.
Proof.
  cbv zeta. unfold migrateAllIssues, fetched_records.
  rewrite !bind_run.
  destruct (emits_getAllIssues_loop fuel
       (if truthy (js_or project_identifier VNull) then js_or project_identifier VNull
        else VUndefined) [] 0 initial) as (sent1 & Ht1 & Hextra1).
  fold (getAllIssues world fuel (js_or project_identifier VNull)) in Ht1.
  cbn [trace initial app] in Ht1.
  assert (Hclean1 : Forall (fun e => is_link e = false) sent1)
    by (eapply Forall_impl; [exact Hextra1 | apply extra_not_link]).
  destruct (getAllIssues world fuel (js_or project_identifier VNull) initial)
    as [[issues|e|] s1]; cbn [snd] in *; [|left; rewrite Ht1; exact Hclean1..].
  destruct issues as [|issue rest]; [left; cbn [ret snd]; rewrite Ht1; exact Hclean1|].
  rewrite !bind_run.
  destruct (emits_fetch_details (issue :: rest) [] s1) as (sent2 & Ht2 & Hextra2).
  assert (Hclean2 : Forall (fun e => is_link e = false) sent2)
    by (eapply Forall_impl; [exact Hextra2 | apply extra_not_link]).
  destruct (fetch_details world config (issue :: rest) [] s1)
    as [[detailedIssues|e|] s2]; cbn [snd] in *;
    [|left; rewrite Ht2, Ht1; apply Forall_app; split; assumption..].
  rewrite !bind_run.
  destruct (emits_batch_loop fuel detailedIssues (getBatchSize config) 0 s2)
    as (sent3 & Ht3 & Hclean3).
  pose proof (batch_loop_all_creations fuel detailedIssues s2) as Hall.
  destruct (batch_loop world project config REDMINE_URL toISOString fuel detailedIssues
              (getBatchSize config) 0 s2) as [[[]|e|] s3]; cbn [snd] in *;
    [|left; rewrite Ht3, Ht2, Ht1; repeat (apply Forall_app; split); assumption..].
  right.
  match goal with
  | |- context [trace (?m s3).2] =>
      assert (Hrest : emits (fun e => is_create e = false) m)
  end.
  { apply emits_bind; [apply emits_migrateRelations|]. intros _.
    apply emits_bind; [apply emits_get_map|]. intros m.
    apply emits_request. reflexivity. }
  destruct (Hrest s3) as (links & -> & Hlinks).
  exists (trace s3), links. repeat split.
  - rewrite Ht3, Ht2, Ht1. repeat (apply Forall_app; split); assumption.
  - destruct (Hall s3 eq_refl) as (sent3' & Ht3' & Hc3).
    rewrite Ht3', Ht2, Ht1, !creations_app, Hc3.
    rewrite (creations_extra sent1 Hextra1), (creations_extra sent2 Hextra2).
    reflexivity.
  - exact Hlinks.
Qed.

(** C5. In a full-batch run, whenever a request that creates a typed link
    (hierarchy or relation) is sent, the node-creation requests sent
    before it are exactly those of the fetched records, one for each, in
    the order they were fetched, and no node-creation request follows:
    the relation phase starts only after the node-creation phase has gone
    through all records. *)
Theorem links_only_after_all_nodes (fuel : nat) (t1 t2 : list event) (e : event) :
  trace (migrateAllIssues world project config REDMINE_URL project_identifier
           toISOString fuel initial).2 = t1 ++ e :: t2 ->
  is_link e = true ->
  (forall x,
     x ∈ fetched_records world config project_identifier fuel ->
     creation_request project config REDMINE_URL x ∈ t1)
  /\ creations t1
     = map (creation_request project config REDMINE_URL)
         (fetched_records world config project_identifier fuel)
  /\ creations t2 = [].
Proof.
  intros Hsent He.
  destruct (migrateAllIssues_phases fuel)
    as [Hclean|(nodes & links & Heq & Hnodes & Hall & Hlinks)].
  - exfalso. exact (no_link_in_clean _ t1 t2 e Hclean He Hsent).
  - rewrite Heq in Hsent.
    destruct (cut_at_link nodes links t1 t2 e Hnodes He Hsent) as (mid & -> & ->).
    apply Forall_app in Hlinks as [Hmid Hlinks].
    apply Forall_cons in Hlinks as [_ Hlinks].
    assert (Hc : creations (nodes ++ mid)
                 = map (creation_request project config REDMINE_URL)
                     (fetched_records world config project_identifier fuel)).
    { rewrite creations_app, Hall, (creations_none mid Hmid). apply app_nil_r. }
    split; [|split].
    + intros x Hx.
      assert (Hin : creation_request project config REDMINE_URL x ∈ creations (nodes ++ mid)).
      { rewrite Hc. apply list_elem_of_fmap. exists x. split; [reflexivity | exact Hx]. }
      apply list_elem_of_In in Hin. apply List.filter_In in Hin as [Hin _].
      apply list_elem_of_In. exact Hin.
    + exact Hc.
    + apply creations_none. exact Hlinks.
Qed.

End PhaseFacts.

(** The kinds of the requests of the sample run, in order: the listing and
    the two details, the two nodes, then the links of record 2 (record 1
    gets none), then the mapping. *)
Example sample_run_requests :
  sample_run.1 = Normal tt
  /\ map (fun e =>
       match e with
       | GetIssues _ _ => "list"
       | GetIssueDetails _ => "detail"
       | CreateWorkItem _ _ => "node"
       | CreateLink _ _ _ _ => "link"
       | Delay _ => "delay"
       | WriteMapping _ => "mapping"
       | _ => "extra"
       end) (trace sample_run.2)
     = [ "list"; "detail"; "delay"; "detail"; "delay"; "node"; "delay"; "node"; "delay";
         "delay"; "link"; "delay"; "link"; "delay"; "mapping" ].
Proof. split; vm_compute; reflexivity. Qed.

Lemma links_only_after_all_nodes_witness :
  creations (take 10 (trace sample_run.2))
  = map (creation_request "Sample" empty_config VUndefined) [issue_1; issue_2]
  /\ creations (drop 11 (trace sample_run.2)) = [].
Proof.
  apply (links_only_after_all_nodes sample_world "Sample" empty_config VUndefined VUndefined
           (fun date => Normal (to_string date)) 3
           (take 10 (trace sample_run.2)) (drop 11 (trace sample_run.2))
           (CreateLink 507 505 (VStr "System.LinkTypes.Hierarchy-Reverse")
              "Parent-Child relationship from Redmine")).
  - vm_compute. reflexivity.
  - reflexivity.
Defined.

(** * Further properties *)

(** ** The mapping tables *)

Lemma prop_inherited (t : option (gmap string value)) (k : string) :
  reads_inherited t k -> prop t k = VProto k.
Proof.
  intros (o & -> & Hown & Hname). unfold prop, read. cbn [mbind option_bind].
  rewrite Hown, Hname. reflexivity.
Qed.

(** X1. [mapWorkItemType] degrades in the order tracker mapping, default
    mapping, ["Issue"], an empty (falsy) entry counting as none; the type
    it returns is never empty.  The table is read as the code reads it: a
    tracker named like a member of [Object.prototype], without an entry of
    its own in a table that is there, gets that member as its type.
    Without the section every tracker gets ["Issue"]. *)
Theorem mapWorkItemType_fallback_order (config : Config) (redmineTracker : value) :
  let specific := prop (work_item_types config) (to_string redmineTracker) in
  let fallback := prop (work_item_types config) "default" in
  (truthy specific = true -> mapWorkItemType config redmineTracker = specific)
  /\ (truthy specific = false -> truthy fallback = true ->
      mapWorkItemType config redmineTracker = fallback)
  /\ (truthy specific = false -> truthy fallback = false ->
      mapWorkItemType config redmineTracker = VStr "Issue")
  /\ truthy (mapWorkItemType config redmineTracker) = true
  /\ (reads_inherited (work_item_types config) (to_string redmineTracker) ->
      mapWorkItemType config redmineTracker = VProto (to_string redmineTracker))
  /\ (work_item_types config = None ->
      mapWorkItemType config redmineTracker = VStr "Issue").
Proof.
  cbv zeta. unfold mapWorkItemType, js_or.
  assert (Hinherited :
    reads_inherited (work_item_types config) (to_string redmineTracker) ->
    truthy (prop (work_item_types config) (to_string redmineTracker)) = true
    /\ prop (work_item_types config) (to_string redmineTracker)
       = VProto (to_string redmineTracker)).
  { intros H. rewrite (prop_inherited _ _ H). split; reflexivity. }
  destruct (truthy (prop (work_item_types config) (to_string redmineTracker))) eqn:Hs.
  - rewrite Hs. repeat split; try congruence.
    + intros H. apply Hinherited, H.
    + intros Hnone. rewrite Hnone in Hs. discriminate Hs.
  - destruct (truthy (prop (work_item_types config) "default")) eqn:Hd.
    + rewrite Hd. repeat split; try congruence.
      * intros H. destruct (Hinherited H) as [Ht _]. discriminate Ht.
      * intros Hnone. rewrite Hnone in Hd. discriminate Hd.
    + repeat split; try congruence.
      intros H. destruct (Hinherited H) as [Ht _]. discriminate Ht.
Qed.

(** X2. [mapPriority] degrades in the order priority mapping, default
    mapping, 3, an empty (falsy) entry counting as none; the priority it
    returns is never empty or zero.  The table is read as the code reads
    it: a priority named like a member of [Object.prototype], without an
    entry of its own in a table that is there, gets that member.  Without
    the section every priority gets 3. *)
Theorem mapPriority_fallback_order (config : Config) (redminePriority : value) :
  let specific := prop (priority_mappings config) (to_string redminePriority) in
  let fallback := prop (priority_mappings config) "default" in
  (truthy specific = true -> mapPriority config redminePriority = specific)
  /\ (truthy specific = false -> truthy fallback = true ->
      mapPriority config redminePriority = fallback)
  /\ (truthy specific = false -> truthy fallback = false ->
      mapPriority config redminePriority = VNum 3)
  /\ truthy (mapPriority config redminePriority) = true
  /\ (reads_inherited (priority_mappings config) (to_string redminePriority) ->
      mapPriority config redminePriority = VProto (to_string redminePriority))
  /\ (priority_mappings config = None -> mapPriority config redminePriority = VNum 3).
Proof.
  cbv zeta. unfold mapPriority, js_or.
  assert (Hinherited :
    reads_inherited (priority_mappings config) (to_string redminePriority) ->
    truthy (prop (priority_mappings config) (to_string redminePriority)) = true
    /\ prop (priority_mappings config) (to_string redminePriority)
       = VProto (to_string redminePriority)).
  { intros H. rewrite (prop_inherited _ _ H). split; reflexivity. }
  destruct (truthy (prop (priority_mappings config) (to_string redminePriority))) eqn:Hs.
  - repeat split; try congruence.
    + intros H. apply Hinherited, H.
    + intros Hnone. rewrite Hnone in Hs. discriminate Hs.
  - destruct (truthy (prop (priority_mappings config) "default")) eqn:Hd.
    + repeat split; try congruence.
      * intros H. destruct (Hinherited H) as [Ht _]. discriminate Ht.
      * intros Hnone. rewrite Hnone in Hd. discriminate Hd.
    + repeat split; try congruence.
      intros H. destruct (Hinherited H) as [Ht _]. discriminate Ht.
Qed.

(** X3. [mapRelationType] has one level only: a relation kind for which
    the table answers nothing truthy gets ["System.LinkTypes.Related"],
    whatever the table holds under ["default"]; the link kind is never
    empty.  The table is read as the code reads it: a kind named like a
    member of [Object.prototype], without an entry of its own in a table
    that is there, gets that member.  Without the section every kind gets
    ["System.LinkTypes.Related"]. *)
Theorem mapRelationType_fallback (config : Config) (redmineRelationType : value) :
  let specific := prop (relation_mappings config) (to_string redmineRelationType) in
  (truthy specific = true -> mapRelationType config redmineRelationType = specific)
  /\ (truthy specific = false ->
      mapRelationType config redmineRelationType = VStr "System.LinkTypes.Related")
  /\ truthy (mapRelationType config redmineRelationType) = true
  /\ (reads_inherited (relation_mappings config) (to_string redmineRelationType) ->
      mapRelationType config redmineRelationType
      = VProto (to_string redmineRelationType))
  /\ (relation_mappings config = None ->
      mapRelationType config redmineRelationType = VStr "System.LinkTypes.Related").
Proof.
  cbv zeta. unfold mapRelationType, js_or.
  assert (Hinherited :
    reads_inherited (relation_mappings config) (to_string redmineRelationType) ->
    truthy (prop (relation_mappings config) (to_string redmineRelationType)) = true
    /\ prop (relation_mappings config) (to_string redmineRelationType)
       = VProto (to_string redmineRelationType)).
  { intros H. rewrite (prop_inherited _ _ H). split; reflexivity. }
  destruct (truthy (prop (relation_mappings config) (to_string redmineRelationType))) eqn:Hs.
  - repeat split; try congruence.
    + intros H. apply Hinherited, H.
    + intros Hnone. rewrite Hnone in Hs. discriminate Hs.
  - repeat split; try congruence.
    intros H. destruct (Hinherited H) as [Ht _]. discriminate Ht.
Qed.

Lemma mapRelationType_fallback_witness :
  mapRelationType relation_default_config (VStr "relates") = VStr "System.LinkTypes.Related"
  /\ mapRelationType relation_default_config (VStr "constructor") = VProto "constructor".
Proof.
  split.
  - destruct (mapRelationType_fallback relation_default_config (VStr "relates"))
      as (_ & Hunmapped & _).
    apply Hunmapped. reflexivity.
  - destruct (mapRelationType_fallback relation_default_config (VStr "constructor"))
      as (_ & _ & _ & Hinherited & _).
    apply Hinherited.
    exists {[ "default" := VStr "System.LinkTypes.Dependency-Forward";
              "blocks" := VStr "System.LinkTypes.Dependency-Forward" ]}.
    split; [reflexivity|]. split; reflexivity.
Defined.

(** The state that [mapStatus] returns is never empty. *)
Lemma mapStatus_never_empty (config : Config) (redmineStatus workItemType : value) :
  truthy (mapStatus config redmineStatus workItemType) = true.
Proof.
  unfold mapStatus. cbv zeta.
  repeat match goal with
         | |- context [if truthy ?v then _ else _] => destruct (truthy v) eqn:?
         end; auto.
Qed.

(** The priority that [mapPriority] returns is never empty. *)
Lemma mapPriority_never_empty (config : Config) (redminePriority : value) :
  truthy (mapPriority config redminePriority) = true.
Proof.
  unfold mapPriority, js_or.
  repeat match goal with
         | |- context [if truthy ?v then _ else _] => destruct (truthy v) eqn:?
         end; auto.
Qed.

Lemma mapWorkItemType_fallback_order_witness :
  mapWorkItemType two_level_config (VStr "Bug") = VStr "Issue"
  /\ mapWorkItemType empty_sections_config (VStr "constructor") = VProto "constructor".
Proof.
  split.
  - destruct (mapWorkItemType_fallback_order two_level_config (VStr "Bug"))
      as (_ & _ & Hbuiltin & _).
    apply Hbuiltin; reflexivity.
  - destruct (mapWorkItemType_fallback_order empty_sections_config (VStr "constructor"))
      as (_ & _ & _ & _ & Hinherited & _).
    apply Hinherited. exists ∅. split; [reflexivity|]. split; reflexivity.
Defined.

Lemma mapPriority_fallback_order_witness :
  mapPriority two_level_config (VStr "High") = VNum 3
  /\ mapPriority empty_sections_config (VStr "valueOf") = VProto "valueOf".
Proof.
  split.
  - destruct (mapPriority_fallback_order two_level_config (VStr "High"))
      as (_ & _ & Hbuiltin & _).
    apply Hbuiltin; reflexivity.
  - destruct (mapPriority_fallback_order empty_sections_config (VStr "valueOf"))
      as (_ & _ & _ & _ & Hinherited & _).
    apply Hinherited. exists ∅. split; [reflexivity|]. split; reflexivity.
Defined.

(** ** The field set and the creation request *)

Lemma present_insert (fields : gmap string value) (k : string) (v : value) :
  nullish v = false ->
  (forall k' v', fields !! k' = Some v' -> nullish v' = false) ->
  forall k' v', <[k := v]> fields !! k' = Some v' -> nullish v' = false.
Proof.
  intros Hv Hfields k' v'. rewrite lookup_insert.
  destruct (decide (k = k')); [congruence | apply Hfields].
Qed.

Lemma present_set_if (fields : gmap string value) (g : bool) (k : string) (v : value) :
  (g = true -> nullish v = false) ->
  (forall k' v', fields !! k' = Some v' -> nullish v' = false) ->
  forall k' v', set_if g k v fields !! k' = Some v' -> nullish v' = false.
Proof.
  intros Hv Hfields. unfold set_if. destruct g; [|exact Hfields].
  apply present_insert; auto.
Qed.

Lemma present_custom_loop (config : Config) (customFields : list CustomField) :
  forall fields : gmap string value,
  (forall k v, fields !! k = Some v -> nullish v = false) ->
  forall k v, foldl (copy_custom_field config) fields customFields !! k = Some v ->
    nullish v = false.
Proof.
  induction customFields as [|c rest IH]; intros fields Hfields; [exact Hfields|].
  simpl. apply IH. unfold copy_custom_field.
  destruct (truthy (prop _ _)); [|exact Hfields]. simpl.
  destruct (truthy (cf_value c)) eqn:Hc; [|exact Hfields].
  unfold assign. destruct (String.eqb _ "__proto__"); [exact Hfields|].
  apply present_insert; [apply truthy_not_nullish; exact Hc | exact Hfields].
Qed.

(** No value of the field set is [null] or [undefined]. *)
Lemma fields_present (config : Config) (url : value) (issue : Issue) :
  forall k v, (mapRedmineIssueToAdoFields config url issue).2 !! k = Some v ->
    nullish v = false.
Proof.
  unfold mapRedmineIssueToAdoFields. cbn [snd].
  assert (H : forall fields : gmap string value,
    (forall k v, fields !! k = Some v -> nullish v = false) ->
    forall k v,
      match custom_fields issue with
      | Some customFields => foldl (copy_custom_field config) fields customFields
      | None => fields
      end !! k = Some v -> nullish v = false).
  { intros fields Hfields. destruct (custom_fields issue); [|exact Hfields].
    apply present_custom_loop. exact Hfields. }
  apply H.
  repeat (apply present_set_if;
          [first [ intros Hg; apply truthy_not_nullish; exact Hg
                 | intros Hg; apply negb_true_iff; exact Hg
                 | intros _; apply truthy_not_nullish; apply mapStatus_never_empty
                 | intros _; apply truthy_not_nullish;
                   apply mapPriority_never_empty ] |]).
  apply present_insert; [reflexivity|].
  apply present_insert.
  { apply truthy_not_nullish. unfold js_or.
    destruct (truthy (subject issue)) eqn:Hs; [exact Hs | reflexivity]. }
  intros k v Hk. rewrite lookup_empty in Hk. discriminate Hk.
Qed.

(** [m[key] ?? d]: a map with a default put under a key it lacks. *)
Lemma lookup_with_default (m : gmap string value) (key k : string) (d : value) :
  match m !! key with
  | Some _ => m
  | None => <[key := d]> m
  end !! k
  = match m !! k with
    | Some v => Some v
    | None => if decide (k = key) then Some d else None
    end.
Proof.
  destruct (decide (k = key)) as [->|Hne].
  - destruct (m !! key) eqn:Hkey; cbv iota beta.
    + exact Hkey.
    + apply lookup_insert_eq.
  - destruct (m !! key); cbv iota beta; rewrite ?lookup_insert_ne by congruence;
      (destruct (m !! k); reflexivity).
Qed.

(** What the patch of [createWorkItem] holds under a field path. *)
Lemma patch_document_lookup (project : string) (fields : gmap string value) (k : string) :
  patch_document project fields !! k
  = match filter (fun entry : string * value => nullish entry.2 = false) fields !! k with
    | Some v => Some v
    | None =>
        if decide (k = "System.IterationPath") then Some (VStr project)
        else if decide (k = "System.AreaPath") then Some (VStr project)
        else None
    end.
Proof.
  unfold patch_document. cbv zeta.
  rewrite lookup_with_default, lookup_with_default.
  destruct (filter _ fields !! k); [reflexivity|].
  destruct (decide (k = "System.AreaPath")) as [->|?]; [|reflexivity].
  destruct (decide (_ = "System.IterationPath")); [congruence | reflexivity].
Qed.

(** X4. Every field that the transformation of a record produces reaches
    the creation request unchanged: none of its values is [null] or
    [undefined], so [createWorkItem] filters none out; and the request
    holds nothing else but the area and iteration paths. *)
Theorem transformed_fields_reach_request (project : string) (config : Config)
    (url : value) (issue : Issue) (k : string) :
  let fields := (mapRedmineIssueToAdoFields config url issue).2 in
  (forall v, fields !! k = Some v -> patch_document project fields !! k = Some v)
  /\ (k <> "System.AreaPath" -> k <> "System.IterationPath" ->
      patch_document project fields !! k = fields !! k).
Proof.
  cbv zeta.
  set (fields := (mapRedmineIssueToAdoFields config url issue).2).
  assert (Hfilter : filter (fun entry : string * value => nullish entry.2 = false) fields
                    = fields).
  { apply map_filter_id. intros k' v' Hk'. simpl. exact (fields_present _ _ _ k' v' Hk'). }
  rewrite patch_document_lookup, Hfilter.
  split.
  - intros v ->. reflexivity.
  - intros Ha Hi. destruct (fields !! k); [reflexivity|].
    destruct (decide (k = "System.IterationPath")); [congruence|].
    destruct (decide (k = "System.AreaPath")); [congruence | reflexivity].
Qed.

(** X5. The patch of [createWorkItem], for any fields and under every
    key: a field whose value is neither [null] nor [undefined] is in the
    patch with that value; under the area and the iteration path, a field
    that is missing, [null] or [undefined] is replaced by the project; and
    under any other key such a field leaves nothing in the patch. *)
Theorem patch_document_contents (project : string) (fields : gmap string value)
    (k : string) :
  let by_default :=
    if decide (k = "System.AreaPath" \/ k = "System.IterationPath")
    then Some (VStr project) else None in
  patch_document project fields !! k
  = match fields !! k with
    | Some v => if nullish v then by_default else Some v
    | None => by_default
    end.
Proof.
  cbv zeta. rewrite patch_document_lookup.
  assert (Hdefault :
    (if decide (k = "System.IterationPath") then Some (VStr project)
     else if decide (k = "System.AreaPath") then Some (VStr project) else None)
    = if decide (k = "System.AreaPath" \/ k = "System.IterationPath")
      then Some (VStr project) else None).
  { repeat case_decide; try reflexivity; exfalso; tauto. }
  destruct (fields !! k) as [v|] eqn:Hk.
  - destruct (nullish v) eqn:Hv.
    + rewrite map_lookup_filter_None_2; [exact Hdefault|].
      right. intros v' Hk'. rewrite Hk in Hk'. injection Hk' as <-.
      cbn [snd]. rewrite Hv. discriminate.
    + rewrite (map_lookup_filter_Some_2 _ _ k v Hk Hv). reflexivity.
  - rewrite map_lookup_filter_None_2 by (left; exact Hk). exact Hdefault.
Qed.

(** The text of a member of [Object.prototype] is not the name of the
    prototype accessor. *)
Lemma proto_text_not_accessor (name : string) :
  String.eqb (proto_text name) "__proto__" = false.
Proof.
  unfold proto_text.
  destruct (String.eqb name "__proto__"); [reflexivity|].
  destruct (String.eqb name "constructor"); reflexivity.
Qed.

Lemma custom_loop_written (config : Config) (customFields : list CustomField) (k : string) :
  forall fields : gmap string value,
  k ∈ omap (custom_target config) customFields \/ is_Some (fields !! k) ->
  is_Some (foldl (copy_custom_field config) fields customFields !! k).
Proof.
  induction customFields as [|c rest IH]; intros fields Hk.
  - destruct Hk as [Hk|Hk]; [|exact Hk]. apply not_elem_of_nil in Hk. contradiction.
  - cbn [foldl]. apply IH. rewrite copy_custom_field_target.
    simpl in Hk. destruct (custom_target config c) as [k'|].
    + destruct (decide (k = k')) as [->|Hne].
      * right. rewrite lookup_insert_eq. eauto.
      * rewrite lookup_insert_ne by congruence.
        destruct Hk as [Hk|Hk]; [|right; exact Hk].
        apply elem_of_cons in Hk as [Hk|Hk]; [contradiction | left; exact Hk].
    + exact Hk.
Qed.

(** X6. The field set of a record holds no key but the title, the
    description, the state, the priority, the keys of the scalar fields and
    the keys its mapped custom fields are written to; and it holds each of
    these custom field keys.  The mapping of a custom field is read as the
    code reads it: a field named like a member of [Object.prototype],
    without an entry of its own in a table that is there, is written under
    the text of that member. *)
Theorem field_keys_bounded (config : Config) (url : value) (issue : Issue) (k : string) :
  (is_Some ((mapRedmineIssueToAdoFields config url issue).2 !! k) ->
   k = "System.Description"
   \/ k = "System.State"
   \/ k = "Microsoft.VSTS.Common.Priority"
   \/ (exists f, k = target_key f)
   \/ k ∈ custom_targets config issue)
  /\ (k ∈ custom_targets config issue ->
      is_Some ((mapRedmineIssueToAdoFields config url issue).2 !! k))
  /\ (forall customField,
        reads_inherited (custom_field_mappings config) (to_string (cf_name customField)) ->
        truthy (cf_value customField) = true ->
        custom_target config customField
        = Some (proto_text (to_string (cf_name customField)))).
Proof.
  split; [|split].
  2: { intros Hk. unfold mapRedmineIssueToAdoFields, custom_targets in *. cbn [snd].
       destruct (custom_fields issue) as [customFields|];
         [|apply not_elem_of_nil in Hk; contradiction].
       apply custom_loop_written. left. exact Hk. }
  2: { intros customField Hread Hvalue. unfold custom_target.
       rewrite (prop_inherited _ _ Hread), Hvalue. cbn [truthy andb to_string].
       rewrite proto_text_not_accessor. reflexivity. }

  intros Hk.
  destruct (decide (k ∈ custom_targets config issue)) as [Hin|Hout]; [tauto|].
  rewrite fields_lookup in Hk by exact Hout. cbn [foldl] in Hk.
  destruct (decide (k = "System.Description")); [tauto|].
  destruct (decide (k = "System.State")); [tauto|].
  destruct (decide (k = "Microsoft.VSTS.Common.Priority")); [tauto|].
  right. right. right. left.
  destruct (decide (k = target_key Title)); [eauto|].
  destruct (decide (k = target_key AssigneeName)); [eauto|].
  destruct (decide (k = target_key StartDate)); [eauto|].
  destruct (decide (k = target_key DueDate)); [eauto|].
  destruct (decide (k = target_key CreatedDate)); [eauto|].
  destruct (decide (k = target_key UpdatedDate)); [eauto|].
  destruct (decide (k = target_key ClosedDate)); [eauto|].
  destruct (decide (k = target_key EffortEstimate)); [eauto|].
  destruct (decide (k = target_key CompletionRatio)); [eauto|].
  exfalso. cbn [target_key] in *.
  rewrite !lookup_set_if_ne in Hk by congruence.
  rewrite !lookup_insert_ne in Hk by congruence.
  rewrite lookup_empty in Hk. destruct Hk as [v Hv]. discriminate Hv.
Qed.

Lemma field_keys_bounded_witness :
  ("System.Title" = "System.Description"
   \/ "System.Title" = "System.State"
   \/ "System.Title" = "Microsoft.VSTS.Common.Priority"
   \/ (exists f, "System.Title" = target_key f)
   \/ "System.Title" ∈ custom_targets empty_config bare_issue)
  /\ is_Some
       ((mapRedmineIssueToAdoFields empty_sections_config VUndefined inherited_field_issue).2
          !! "function toString() { [native code] }").
Proof.
  split.
  - destruct (field_keys_bounded empty_config VUndefined bare_issue "System.Title")
      as (Hbound & _).
    apply Hbound. exists (VStr "Untitled"). reflexivity.
  - destruct (field_keys_bounded empty_sections_config VUndefined inherited_field_issue
                "function toString() { [native code] }") as (_ & Hwritten & _).
    apply Hwritten. apply list_elem_of_here.
Defined.

(** X7. The description is always set.  The state and the priority are set
    exactly for a record that has a (truthy) status name, priority name:
    the state is the one [mapStatus] gives under the record's work item
    type, the priority the one [mapPriority] gives.  Each provided no
    custom field of the record is written to that key. *)
Theorem description_state_priority_copy (config : Config) (url : value) (issue : Issue) :
  let mapped := mapRedmineIssueToAdoFields config url issue in
  ("System.Description" ∉ custom_targets config issue ->
   mapped.2 !! "System.Description" = Some (VStr (compose_description config url issue)))
  /\ ("System.State" ∉ custom_targets config issue ->
      mapped.2 !! "System.State"
      = if truthy (opt_name (status issue))
        then Some (mapStatus config (opt_name (status issue)) mapped.1)
        else None)
  /\ ("Microsoft.VSTS.Common.Priority" ∉ custom_targets config issue ->
      mapped.2 !! "Microsoft.VSTS.Common.Priority"
      = if truthy (opt_name (priority issue))
        then Some (mapPriority config (opt_name (priority issue)))
        else None).
Proof.
  cbv zeta. repeat split; intros Hk;
    rewrite fields_lookup by exact Hk; cbn [foldl]; read_field; reflexivity.
Qed.

Lemma description_state_priority_copy_witness :
  (mapRedmineIssueToAdoFields empty_config VUndefined bare_issue).2 !! "System.Description"
    = Some (VStr "")
  /\ (mapRedmineIssueToAdoFields empty_config VUndefined bare_issue).2 !! "System.State"
     = None
  /\ (mapRedmineIssueToAdoFields empty_config VUndefined bare_issue).2
       !! "Microsoft.VSTS.Common.Priority" = None.
Proof.
  destruct (description_state_priority_copy empty_config VUndefined bare_issue)
    as (Hd & Hs & Hp).
  split; [|split].
  - apply Hd, not_elem_of_nil.
  - apply Hs, not_elem_of_nil.
  - apply Hp, not_elem_of_nil.
Defined.

(** X8. Custom field copy: the last custom field of a record that is
    written to a key decides the value under that key, also over a scalar
    field copied to the same key. *)
Theorem custom_field_last_wins (config : Config) (url : value) (issue : Issue)
    (before after : list CustomField) (customField : CustomField) (k : string) :
  custom_fields issue = Some (before ++ customField :: after) ->
  custom_target config customField = Some k ->
  k ∉ omap (custom_target config) after ->
  (mapRedmineIssueToAdoFields config url issue).2 !! k = Some (cf_value customField).
Proof.
  intros Hcf Hc Hafter. unfold mapRedmineIssueToAdoFields. cbn [snd].
  rewrite Hcf, foldl_app. cbn [foldl].
  rewrite custom_loop_lookup by exact Hafter.
  rewrite copy_custom_field_target, Hc. apply lookup_insert_eq.
Qed.

Lemma custom_field_last_wins_witness :
  (mapRedmineIssueToAdoFields scheduling_config VUndefined zero_issue_custom).2
    !! "Microsoft.VSTS.Scheduling.CompletedWork" = Some (VStr "half").
Proof.
  apply (custom_field_last_wins scheduling_config VUndefined zero_issue_custom
           [ {| cf_name := VStr "Effort"; cf_value := VStr "8" |} ] []
           {| cf_name := VStr "Progress"; cf_value := VStr "half" |}).
  - reflexivity.
  - reflexivity.
  - apply not_elem_of_nil.
Defined.

(** ** The description *)

Lemma append_empty_r (a : string) : a +:+ "" = a.
Proof.
  induction a as [|x a IH]; [reflexivity|].
  change (String x (a +:+ "") = String x a). rewrite IH. reflexivity.
Qed.

Lemma append_assoc (a b c : string) : (a +:+ b) +:+ c = a +:+ b +:+ c.
Proof.
  induction a as [|x a IH]; [reflexivity|].
  change (String x ((a +:+ b) +:+ c) = String x (a +:+ b +:+ c)). rewrite IH. reflexivity.
Qed.

(** The body of the description of a record: nothing, when it has none. *)
Lemma compose_description_body (config : Config) (url : value) (issue : Issue) :
  exists banners,
    (forall issue', id issue' = id issue ->
       compose_description config url issue'
       = banners +:+ (if truthy (description issue')
                      then to_string (description issue') else ""))
    /\ (truthy (preserve_redmine_id (migration_options config)) = true ->
        exists rest,
          banners = "<b>Migrated from Redmine Issue #" +:+ show_num (id issue)
                      +:+ "</b><br/>" +:+ rest).
Proof.
  unfold compose_description. cbv zeta.
  eexists. split.
  - intros issue' ->.
    destruct (truthy (description issue')); [reflexivity|].
    symmetry. apply append_empty_r.
  - intros ->.
    destruct (truthy (add_redmine_link _) && negb (id issue =? 0)).
    + rewrite !append_assoc. eexists. reflexivity.
    + exists "". reflexivity.
Qed.

(** X9. The description is composed in a fixed order.  It is the banners
    followed by the original body (nothing, when the record has no
    description), and the banners do not depend on the body: two records
    with the same id get the same ones.  When the id banner is on, it comes
    first.  Without the id banner option, and without the link banner
    option or on a record with id 0, the description is the body alone. *)
Theorem description_banners_precede_body (config : Config) (url : value) (issue : Issue) :
  let body (i : Issue) := if truthy (description i) then to_string (description i) else "" in
  (exists banners,
     (forall issue', id issue' = id issue ->
        compose_description config url issue' = banners +:+ body issue')
     /\ (truthy (preserve_redmine_id (migration_options config)) = true ->
         exists rest,
           banners = "<b>Migrated from Redmine Issue #" +:+ show_num (id issue)
                       +:+ "</b><br/>" +:+ rest))
  /\ (truthy (preserve_redmine_id (migration_options config)) = false ->
      truthy (add_redmine_link (migration_options config)) && negb (id issue =? 0) = false ->
      compose_description config url issue = body issue).
Proof.
  cbv zeta. split; [apply compose_description_body|].
  unfold compose_description. cbv zeta.
  intros -> ->. destruct (truthy (description issue)); reflexivity.
Qed.

(** ** The relation phase *)

Lemma paced_app (d : value) (a b : list event) : paced d a -> paced d b -> paced d (a ++ b).
Proof.
  intros Ha Hb. induction Ha; simpl; [exact Hb | constructor; assumption..].
Qed.

Lemma state_eta (s : State) : {| trace := trace s; issueIdMap := issueIdMap s |} = s.
Proof. destruct s. reflexivity. Qed.

Section Sends.

Context (P : list event -> Prop).
Hypothesis P_nil : P [].
Hypothesis P_app : forall a b, P a -> P b -> P (a ++ b).

Lemma sends_ret : sends P (ret tt).
Proof.
  intros s. exists []. split; [|exact P_nil].
  unfold ret. rewrite app_nil_r, state_eta. reflexivity.
Qed.

Lemma sends_seq {A} (m : M A) (k : M unit) :
  (forall s, exists a sent,
     m s = (Normal a, {| trace := trace s ++ sent; issueIdMap := issueIdMap s |}) /\ P sent) ->
  sends P k -> sends P (m >> k).
Proof.
  intros Hm Hk s. rewrite bind_run.
  destruct (Hm s) as (a & sent1 & -> & H1).
  destruct (Hk {| trace := trace s ++ sent1; issueIdMap := issueIdMap s |})
    as (sent2 & -> & H2).
  exists (sent1 ++ sent2). split; [|apply P_app; assumption].
  cbn [trace issueIdMap]. rewrite app_assoc. reflexivity.
Qed.

Lemma sends_then (m k : M unit) : sends P m -> sends P k -> sends P (m >> k).
Proof.
  intros Hm Hk. apply sends_seq; [|exact Hk].
  intros s. destruct (Hm s) as (sent & Hs & HP). exists tt, sent. split; assumption.
Qed.

Lemma sends_with_map (k : gmap Z Z -> M unit) :
  (forall m, sends P (k m)) -> sends P (let* m := get_map in k m).
Proof.
  intros Hk s. rewrite bind_run. cbn [get_map]. apply Hk.
Qed.

Lemma sends_when (c : bool) (body : M unit) : sends P body -> sends P (when c body).
Proof. intros H. destruct c; [exact H | apply sends_ret]. Qed.

Lemma sends_for_each {A} (l : list A) (body : A -> M unit) :
  (forall x, sends P (body x)) -> sends P (for_each l body).
Proof.
  intros H. induction l as [|x rest IH]; simpl.
  - apply sends_ret.
  - apply sends_then; [apply H | exact IH].
Qed.

End Sends.

Section RelationPhase.

Context (world : World).
Context (config : Config).

Lemma sends_delay (d : value) : sends (paced d) (delay d).
Proof.
  intros s. exists [Delay d]. split; [reflexivity | repeat constructor].
Qed.

(** A link step: [createLink] and the delay that follows it. *)
Lemma sends_link_step (source target : Z) (linkType : value) (comment : string) :
  sends (paced (getDelayMs config))
    (createLink world source target linkType comment >> delay (getDelayMs config)).
Proof.
  intros s. rewrite bind_run. unfold createLink.
  destruct (source =? target).
  - exists [Delay (getDelayMs config)]. split; [reflexivity | repeat constructor].
  - eexists [CreateLink source target linkType _; Delay (getDelayMs config)].
    split; [|repeat constructor].
    unfold delay, request. cbv zeta. cbn [trace issueIdMap].
    rewrite <- app_assoc. reflexivity.
Qed.

Lemma sends_migrate_relations_of (issue : Issue) :
  sends (paced (getDelayMs config)) (migrate_relations_of world config issue).
Proof.
  pose proof (paced_nil (getDelayMs config)) as Hnil.
  pose proof (paced_app (getDelayMs config)) as Happ.
  unfold migrate_relations_of, migrate_parent, migrate_relation.
  apply sends_with_map. intros m.
  destruct (issueIdMap_get m (id issue)) as [source|]; [|apply sends_ret; exact Hnil].
  destruct (truthy_id (Some source)); [|apply sends_ret; exact Hnil].
  apply sends_then; [exact Happ|..].
  - apply sends_when; [exact Hnil|]. apply sends_when; [exact Hnil|].
    apply sends_with_map. intros m'.
    destruct (issueIdMap_get_value m' (getParentId issue));
      [|apply sends_ret; exact Hnil].
    apply sends_when; [exact Hnil|]. apply sends_link_step.
  - apply sends_when; [exact Hnil|]. apply sends_for_each; [exact Hnil | exact Happ|].
    intros relation. apply sends_with_map. intros m'.
    destruct (issueIdMap_get_value m' (targetRedmineId relation));
      [|apply sends_ret; exact Hnil].
    apply sends_when; [exact Hnil|]. apply sends_link_step.
Qed.

(** X10. The relation phase never fails and never writes the identity map,
    and it is paced: it sends nothing but link requests and delays of
    [getDelayMs], and every link request, accepted or not, is followed at
    once by such a delay. *)
Theorem migrateRelations_paced (redmineIssues : list Issue) (s : State) :
  exists sent,
    migrateRelations world config redmineIssues s
    = (Normal tt, {| trace := trace s ++ sent; issueIdMap := issueIdMap s |})
    /\ paced (getDelayMs config) sent.
Proof.
  apply (sends_for_each (paced (getDelayMs config))).
  - constructor.
  - apply paced_app.
  - apply sends_migrate_relations_of.
Qed.

End RelationPhase.

Section RelationSteps.

Context (world : World).
Context (config : Config).

Lemma for_each_skip {A} (l : list A) (body : A -> M unit) (s : State) :
  (forall x, body x s = (Normal tt, s)) -> for_each l body s = (Normal tt, s).
Proof.
  intros H. induction l as [|x rest IH]; [reflexivity|].
  simpl. rewrite bind_run, H. exact IH.
Qed.

(** X11. The relation phase passes over a record that has no (truthy)
    entry in the identity map, the record whose creation failed: it sends
    nothing for it, neither for its parent nor for its relations.  With
    both the hierarchy and the relation toggle set to [false], it sends
    nothing at all. *)
Theorem relations_skipped (s : State) :
  (forall issue,
     truthy_id (issueIdMap_get (issueIdMap s) (id issue)) = false ->
     migrate_relations_of world config issue s = (Normal tt, s))
  /\ (shouldMigrateSubtasks config = false ->
      shouldMigrateRelations config = false ->
      forall redmineIssues, migrateRelations world config redmineIssues s = (Normal tt, s)).
Proof.
  split.
  - intros issue H. unfold migrate_relations_of. rewrite bind_run. cbn [get_map].
    destruct (issueIdMap_get (issueIdMap s) (id issue)); [|reflexivity].
    rewrite H. reflexivity.
  - intros Hs Hr redmineIssues. apply for_each_skip. intros issue.
    unfold migrate_relations_of. rewrite bind_run. cbn [get_map].
    destruct (issueIdMap_get (issueIdMap s) (id issue)) as [source|]; [|reflexivity].
    destruct (truthy_id (Some source)); [|reflexivity].
    rewrite Hs, Hr. reflexivity.
Qed.

(** X12. The hierarchy step of a record whose parent is in the identity
    map, under a work item other than its own, sends one link request,
    from the record's work item to the parent's with the kind
    ["System.LinkTypes.Hierarchy-Reverse"], and then the delay.  For a
    record without a parent, or whose parent is not in the map, it does
    nothing. *)
Theorem hierarchy_link (source : Z) (issue : Issue) (s : State) :
  (forall p target,
     parent issue = Some (VNum p) -> p <> 0 ->
     issueIdMap_get (issueIdMap s) p = Some target -> target <> 0 -> source <> target ->
     migrate_parent world config source issue s
     = (Normal tt,
        {| trace := trace s ++
             [ CreateLink source target (VStr "System.LinkTypes.Hierarchy-Reverse")
                 "Parent-Child relationship from Redmine";
               Delay (getDelayMs config) ];
           issueIdMap := issueIdMap s |}))
  /\ (issueIdMap_get_value (issueIdMap s) (getParentId issue) = None ->
      migrate_parent world config source issue s = (Normal tt, s)).
Proof.
  split.
  - intros p target Hp Hp0 Hget Ht Hne.
    assert (Htruthy : truthy (VNum p) = true).
    { simpl. apply Z.eqb_neq in Hp0. rewrite Hp0. reflexivity. }
    assert (Hpar : getParentId issue = VNum p).
    { unfold getParentId, js_or. rewrite Hp. simpl in *. rewrite Htruthy. reflexivity. }
    unfold migrate_parent. rewrite Hpar.
    rewrite Htruthy. cbn [when]. rewrite bind_run. cbn [get_map issueIdMap_get_value].
    rewrite Hget. cbn [truthy_id]. apply Z.eqb_neq in Ht. rewrite Ht. cbn [negb when].
    rewrite bind_run. unfold createLink. apply Z.eqb_neq in Hne. rewrite Hne.
    unfold delay, request. cbn [trace issueIdMap String.eqb Ascii.eqb].
    rewrite <- app_assoc. reflexivity.
  - intros H. unfold migrate_parent.
    destruct (truthy (getParentId issue)); [|reflexivity].
    cbn [when]. rewrite bind_run. cbn [get_map]. rewrite H. reflexivity.
Qed.

End RelationSteps.

Lemma relations_skipped_witness :
  migrate_relations_of sample_world empty_config issue_1 initial = (Normal tt, initial).
Proof.
  destruct (relations_skipped sample_world empty_config initial) as [Hskip _].
  apply Hskip. reflexivity.
Defined.

Lemma hierarchy_link_witness :
  migrate_parent sample_world empty_config 502 issue_2 both_migrated
  = (Normal tt,
     {| trace :=
          [ CreateLink 502 501 (VStr "System.LinkTypes.Hierarchy-Reverse")
              "Parent-Child relationship from Redmine";
            Delay (VNum 100) ];
        issueIdMap := {[ 1 := 501; 2 := 502 ]} |}).
Proof.
  destruct (hierarchy_link sample_world empty_config 502 issue_2 both_migrated) as [Hlink _].
  apply (Hlink 1 501); first [reflexivity | lia].
Defined.

(** ** Node creation *)

Section NodeCreation.

Context (world : World).
Context (project : string).
Context (config : Config).
Context (REDMINE_URL : value).
Context (toISOString : value -> completion string).

Lemma keeps_map_lift {A} (c : completion A) : keeps_map (lift c).
Proof. intros s. reflexivity. Qed.

Lemma keeps_map_migrateComments (journals : list Journal) (workItemId : Z) :
  keeps_map (migrateComments world config toISOString journals workItemId).
Proof.
  unfold migrateComments, addComment, delay.
  apply keeps_map_for_each. intros journal.
  repeat first [ apply keeps_map_bind; [|intros ?]
               | apply keeps_map_lift | apply keeps_map_request ].
Qed.

Lemma keeps_map_migrateAttachments (attachments : list Attachment) (workItemId : Z) :
  keeps_map (migrateAttachments world config attachments workItemId).
Proof.
  unfold migrateAttachments, getAttachmentContent, uploadAttachment,
    attachFileToWorkItem, delay.
  apply keeps_map_for_each. intros attachment.
  repeat first [ apply keeps_map_bind; [|intros ?]
               | apply keeps_map_request | apply keeps_map_ret | apply keeps_map_when
               | match goal with
                 | |- keeps_map (match ?x with _ => _ end) => destruct x
                 end ].
Qed.

Lemma seq_not_none {A} (m : M A) (k : M (option Z)) (s : State) :
  (forall s', (k s').1 <> Normal None) -> ((m >> k) s).1 <> Normal None.
Proof.
  intros Hk. rewrite bind_run. destruct (m s) as [[a|e|] s1]; [apply Hk|discriminate..].
Qed.

Lemma seq_some {A} (m : M A) (k : M (option Z)) (w : Z) (s : State) :
  (forall s' w', (k s').1 = Normal (Some w') -> w' = w) ->
  forall w', ((m >> k) s).1 = Normal (Some w') -> w' = w.
Proof.
  intros Hk w'. rewrite bind_run. destruct (m s) as [[a|e|] s1]; [apply Hk|discriminate..].
Qed.

(** [migrateIssue] by the answer to its creation request. *)
Lemma migrateIssue_run (issue : Issue) (s : State) :
  migrateIssue world project config REDMINE_URL toISOString issue s
  = let mapped := mapRedmineIssueToAdoFields config REDMINE_URL issue in
    let s1 := {| trace := trace s ++ [creation_request project config REDMINE_URL issue];
                 issueIdMap := issueIdMap s |} in
    match ado_create world (trace s) mapped.1 (patch_document project mapped.2) with
    | None => (Normal None, s1)
    | Some w =>
        (put_map (<[id issue := w]> (issueIdMap s)) >>
         when (shouldMigrateComments config && non_empty (journals issue))
           (migrateComments world config toISOString (default [] (journals issue)) w) >>
         when (shouldMigrateAttachments config && non_empty (attachments issue))
           (migrateAttachments world config (default [] (attachments issue)) w) >>
         ret (Some w)) s1
    end.
Proof.
  unfold migrateIssue, creation_request. cbv zeta.
  rewrite bind_run. unfold createWorkItem at 1. unfold request at 1.
  destruct (ado_create world (trace s) _ _); reflexivity.
Qed.

(** X13. [migrateIssue] records a record in the identity map exactly when
    its creation request is answered with a work item.  When the creation
    fails, it returns nothing, leaves the map as it is and sends nothing
    after the creation request (no comment, no attachment).  When it
    succeeds, the map afterwards is the map before with the record's id
    set to the new work item, also if a comment then throws; and what it
    returns, if it returns, is that work item. *)
Theorem migrateIssue_outcome (issue : Issue) (s : State) :
  let mapped := mapRedmineIssueToAdoFields config REDMINE_URL issue in
  let answer := ado_create world (trace s) mapped.1 (patch_document project mapped.2) in
  let after := migrateIssue world project config REDMINE_URL toISOString issue s in
  (answer = None ->
   after = (Normal None,
            {| trace := trace s ++ [creation_request project config REDMINE_URL issue];
               issueIdMap := issueIdMap s |}))
  /\ (forall w, answer = Some w ->
        issueIdMap after.2 = <[id issue := w]> (issueIdMap s)
        /\ after.1 <> Normal None
        /\ forall w', after.1 = Normal (Some w') -> w' = w).
Proof.
  cbv zeta. rewrite migrateIssue_run. cbv zeta.
  split.
  - intros ->. reflexivity.
  - intros w ->.
    split; [|split].
    + rewrite bind_run. cbn [put_map].
      match goal with
      | |- issueIdMap (?k ?s1).2 = _ => assert (Hk : keeps_map k); [|apply (Hk s1)]
      end.
      apply keeps_map_bind; [apply keeps_map_when, keeps_map_migrateComments|intros _].
      apply keeps_map_bind; [apply keeps_map_when, keeps_map_migrateAttachments|intros _].
      apply keeps_map_ret.
    + repeat (apply seq_not_none; intros ?). discriminate.
    + repeat (apply seq_some; intros ?). intros w' H. cbn in H. congruence.
Qed.

End NodeCreation.
(** ** Comments and attachments *)

Lemma foldl_append_foldr {A} (g : A -> string) (l : list A) :
  forall a,
  foldl (fun acc x => acc +:+ g x) a l
  = a +:+ foldr (fun x rest => g x +:+ rest) "" l.
Proof.
  induction l as [|x rest IH]; intros a; cbn [foldl foldr].
  - symmetry. apply append_empty_r.
  - rewrite IH. apply append_assoc.
Qed.

(** X14. A journal entry is formatted as a header with the author
    (["Unknown User"] without one) and the date (["Unknown Date"] without
    one), then the changes, then the notes section, which is always there:
    it holds ["No notes provided."] when the entry has no notes.  The
    changes are a list with one item per change, in order, each naming the
    field, the old and the new value; an entry without changes has nothing
    between header and notes.  Formatting fails only when the date of the
    entry cannot be rendered. *)
Theorem formatJournalAsComment_shape (toISOString : value -> completion string)
    (journal : Journal) :
  let user := to_string (js_or (opt_name (journal_user journal)) (VStr "Unknown User")) in
  let notes_text := to_string (js_or (notes journal) (VStr "No notes provided.")) in
  let changes :=
    if non_empty (details journal)
    then "<br/><b>Changes:</b><ul>" +:+ change_lines (default [] (details journal))
           +:+ "</ul>"
    else "" in
  (forall text,
     formatJournalAsComment toISOString journal = Normal text ->
     exists date,
       text = "<b>Update by " +:+ user +:+ " on " +:+ date +:+ "</b><br/>"
                +:+ changes +:+ "<br/><b>Notes:</b><br/>" +:+ notes_text
       /\ (if truthy (journal_created_on journal)
           then toISOString (journal_created_on journal) = Normal date
           else date = "Unknown Date"))
  /\ (truthy (journal_created_on journal) = false
      \/ (exists date, toISOString (journal_created_on journal) = Normal date) ->
      exists text, formatJournalAsComment toISOString journal = Normal text).
Proof.
  cbv zeta.
  assert (Hnotes : truthy (js_or (notes journal) (VStr "No notes provided.")) = true)
    by (apply js_or_truthy; reflexivity).
  unfold formatJournalAsComment. cbv zeta. rewrite Hnotes.
  split.
  - intros text Htext.
    assert (Hdate : exists date,
      (if truthy (journal_created_on journal)
       then toISOString (journal_created_on journal)
       else Normal "Unknown Date") = Normal date
      /\ (if truthy (journal_created_on journal)
          then toISOString (journal_created_on journal) = Normal date
          else date = "Unknown Date")).
    { destruct (truthy (journal_created_on journal)).
      - destruct (toISOString (journal_created_on journal)) as [date|e|];
          try discriminate Htext. exists date. split; reflexivity.
      - exists "Unknown Date". split; reflexivity. }
    destruct Hdate as (date & Hrun & Hdate). rewrite Hrun in Htext.
    injection Htext as <-. exists date. split; [|exact Hdate].
    destruct (details journal) as [[|detail changes]|]; cbn [non_empty default].
    + rewrite !append_assoc. reflexivity.
    + change (fun (comment : string) (detail0 : JournalDetail) => comment +:+ _)
        with (fun (comment : string) (detail0 : JournalDetail) =>
                comment +:+ change_line detail0).
      rewrite foldl_append_foldr. fold (change_lines (detail :: changes)).
      rewrite !append_assoc. reflexivity.
    + rewrite !append_assoc. reflexivity.
  - intros [Hfalsy|(date & Hdate)].
    + rewrite Hfalsy. eexists. reflexivity.
    + destruct (truthy (journal_created_on journal)); [rewrite Hdate|]; eexists; reflexivity.
Qed.

Section Extras.

Context (world : World).
Context (config : Config).
Context (toISOString : value -> completion string).

(** X15. [migrateComments] posts the journal entries in their order, one
    comment request each, followed by the delay.  An entry whose date
    cannot be rendered makes it throw: the comments before it were sent,
    no comment of it or after it is. *)
Theorem migrateComments_in_order (journals : list Journal) (texts : list string)
    (adoWorkItemId : Z) (s : State) :
  Forall2 (fun journal text => formatJournalAsComment toISOString journal = Normal text)
    journals texts ->
  let posted :=
    {| trace := trace s ++
         flat_map (fun text => [AddComment adoWorkItemId text; Delay (getDelayMs config)])
           texts;
       issueIdMap := issueIdMap s |} in
  migrateComments world config toISOString journals adoWorkItemId s = (Normal tt, posted)
  /\ forall journal later e,
       formatJournalAsComment toISOString journal = Throw e ->
       migrateComments world config toISOString (journals ++ journal :: later)
         adoWorkItemId s = (Throw e, posted).
Proof.
  intros H. revert s. induction H as [|journal text journals texts Htext _ IH]; intros s.
  - cbv zeta. cbn [flat_map]. rewrite app_nil_r, state_eta. split; [reflexivity|].
    intros journal later e He. unfold migrateComments. cbn [app for_each].
    rewrite bind_run, bind_run. unfold lift. rewrite He. reflexivity.
  - cbv zeta.
    assert (Hstep : forall rest,
      migrateComments world config toISOString (journal :: rest) adoWorkItemId s
      = migrateComments world config toISOString rest adoWorkItemId
          {| trace := trace s ++ [AddComment adoWorkItemId text; Delay (getDelayMs config)];
             issueIdMap := issueIdMap s |}).
    { intros rest. unfold migrateComments. cbn [for_each].
      rewrite bind_run, bind_run. unfold lift. rewrite Htext.
      rewrite bind_run. unfold addComment, delay, request. cbn [trace issueIdMap].
      rewrite <- app_assoc. reflexivity. }
    specialize (IH {| trace := trace s ++
                        [AddComment adoWorkItemId text; Delay (getDelayMs config)];
                      issueIdMap := issueIdMap s |}).
    cbv zeta in IH. cbn [trace issueIdMap] in IH. rewrite <- app_assoc in IH.
    destruct IH as [IHok IHthrow].
    split.
    + rewrite Hstep. exact IHok.
    + intros j later e He. rewrite <- app_comm_cons, Hstep. exact (IHthrow j later e He).
Qed.

(** One attachment: the download, then the upload and the link to the
    work item if each went well, then the delay. *)
Lemma migrate_attachment_step (attachment : Attachment) (adoWorkItemId : Z) (s : State) :
  exists sent,
    migrateAttachments world config [attachment] adoWorkItemId s
    = (Normal tt, {| trace := trace s ++ sent; issueIdMap := issueIdMap s |})
    /\ downloads sent = [content_url attachment]
    /\ Forall (fun e => is_extra e = true) sent.
Proof.
  unfold migrateAttachments. cbn [for_each].
  rewrite !bind_run. unfold getAttachmentContent at 1. unfold request at 1.
  destruct (redmine_attachment world (trace s) (content_url attachment)) as [content|].
  - rewrite !bind_run. unfold uploadAttachment at 1. unfold request at 1.
    cbn [trace issueIdMap].
    match goal with |- context [when (truthy ?url)] => destruct (truthy url) end.
    + eexists [_; _; _; _]. split; [|split].
      * cbn [when]. rewrite bind_run.
        unfold attachFileToWorkItem, delay, request, ret. cbn [trace issueIdMap].
        rewrite <- !app_assoc. reflexivity.
      * reflexivity.
      * repeat constructor.
    + eexists [_; _; _]. split; [|split].
      * cbn [when]. unfold delay, request, ret. cbn [trace issueIdMap].
        rewrite <- !app_assoc. reflexivity.
      * reflexivity.
      * repeat constructor.
  - eexists [_; _]. split; [|split].
    + rewrite bind_run. unfold delay, request, ret. cbn [trace issueIdMap].
      rewrite <- !app_assoc. reflexivity.
    + reflexivity.
    + repeat constructor.
Qed.

(** X16. [migrateAttachments] never fails and goes through all the
    attachments: it requests the download of every one of them, in order,
    whatever happened to the ones before; it leaves the identity map as it
    is and sends no creation and no link request. *)
Theorem migrateAttachments_attempts_all (attachments : list Attachment)
    (adoWorkItemId : Z) (s : State) :
  exists sent,
    migrateAttachments world config attachments adoWorkItemId s
    = (Normal tt, {| trace := trace s ++ sent; issueIdMap := issueIdMap s |})
    /\ downloads sent = map content_url attachments
    /\ Forall (fun e => is_extra e = true) sent.
Proof.
  revert s. induction attachments as [|attachment rest IH]; intros s.
  - exists []. repeat split; [|constructor].
    unfold migrateAttachments. cbn [for_each ret]. rewrite app_nil_r, state_eta. reflexivity.
  - destruct (migrate_attachment_step attachment adoWorkItemId s) as (sent1 & H1 & Hd1 & He1).
    destruct (IH {| trace := trace s ++ sent1; issueIdMap := issueIdMap s |})
      as (sent2 & H2 & Hd2 & He2).
    exists (sent1 ++ sent2). split; [|split].
    + change (attachment :: rest) with ([attachment] ++ rest).
      unfold migrateAttachments in *. rewrite for_each_app, bind_run, H1, H2.
      cbn [trace issueIdMap]. rewrite app_assoc. reflexivity.
    + unfold downloads in *. rewrite omap_app, Hd1, Hd2. reflexivity.
    + apply Forall_app. split; assumption.
Qed.

End Extras.

Lemma migrateComments_in_order_witness :
  migrateComments sample_world empty_config (fun date => Normal (to_string date))
    [note_journal] 501 initial
  = (Normal tt,
     {| trace :=
          [ AddComment 501
              "<b>Update by Unknown User on Unknown Date</b><br/><br/><b>Notes:</b><br/>Done.";
            Delay (VNum 100) ];
        issueIdMap := ∅ |}).
Proof.
  destruct (migrateComments_in_order sample_world empty_config
              (fun date => Normal (to_string date)) [note_journal]
              ["<b>Update by Unknown User on Unknown Date</b><br/><br/><b>Notes:</b><br/>Done."]
              501 initial) as [Hsent _].
  - repeat constructor.
  - exact Hsent.
Defined.
(** ** The batch loop *)

(** X17. The batch size is the configured one, and 50 when none is
    configured or the configured one is 0.  It is never 0, so the index of
    the batch loop moves at every turn; a negative size is kept. *)
Theorem getBatchSize_default (config : Config) :
  (batch_size (migration_options config) = None -> getBatchSize config = 50)
  /\ (batch_size (migration_options config) = Some 0 -> getBatchSize config = 50)
  /\ (forall n, n <> 0 ->
      batch_size (migration_options config) = Some n -> getBatchSize config = n)
  /\ getBatchSize config <> 0.
Proof.
  unfold getBatchSize. repeat split.
  - intros ->. reflexivity.
  - intros ->. reflexivity.
  - intros n Hn ->. destruct (Z.eqb_spec n 0); [contradiction | reflexivity].
  - destruct (batch_size (migration_options config)) as [n|]; [|lia].
    destruct (Z.eqb_spec n 0); lia.
Qed.

Lemma getBatchSize_default_witness : getBatchSize (with_batch_size 0) = 50.
Proof.
  destruct (getBatchSize_default (with_batch_size 0)) as (_ & Hzero & _).
  apply Hzero. reflexivity.
Defined.

Section BatchLoop.

Context (world : World).
Context (project : string).
Context (config : Config).
Context (REDMINE_URL : value).
Context (project_identifier : value).
Context (toISOString : value -> completion string).

Lemma batch_loop_from (detailedIssues : list Issue) (batchSize : Z) (fuel : nat) :
  0 < batchSize ->
  forall i s,
  0 <= i ->
  (length (drop (Z.to_nat i) detailedIssues) < fuel)%nat ->
  batch_loop world project config REDMINE_URL toISOString fuel detailedIssues batchSize i s
  = for_each (drop (Z.to_nat i) detailedIssues)
      (fun issue =>
         migrateIssue world project config REDMINE_URL toISOString issue >>
         delay (getDelayMs config)) s.
Proof.
  intros Hb. induction fuel as [|fuel IH]; intros i s Hi Hfuel; [lia|].
  rewrite length_drop in Hfuel. cbn [batch_loop].
  destruct (Z.ltb_spec i (Z.of_nat (length detailedIssues))) as [Hlt|Hge].
  - rewrite js_slice_batch by lia.
    rewrite <- (take_drop (Z.to_nat batchSize) (drop (Z.to_nat i) detailedIssues)) at 2.
    rewrite for_each_app, !bind_run.
    destruct (for_each _ _ s) as [[[]|e|] s1]; try reflexivity.
    rewrite IH by (try rewrite length_drop; lia).
    rewrite drop_drop. do 2 f_equal. lia.
  - rewrite drop_ge by lia. reflexivity.
Qed.

(** X18. The batch size is not observable in the requests: with any
    positive batch size, the batch loop does what one pass over the fetched
    records does, migrating each and waiting after each.  The loop ends
    within as many turns as there are records. *)
Theorem batch_size_unobservable (detailedIssues : list Issue) (batchSize : Z)
    (fuel : nat) (s : State) :
  0 < batchSize ->
  (length detailedIssues < fuel)%nat ->
  batch_loop world project config REDMINE_URL toISOString fuel detailedIssues batchSize 0 s
  = for_each detailedIssues
      (fun issue =>
         migrateIssue world project config REDMINE_URL toISOString issue >>
         delay (getDelayMs config)) s.
Proof.
  intros Hb Hfuel. apply (batch_loop_from detailedIssues batchSize fuel Hb 0 s); [lia|].
  exact Hfuel.
Qed.

End BatchLoop.

Lemma batch_size_unobservable_witness :
  batch_loop sample_world "Sample" empty_config VUndefined
    (fun date => Normal (to_string date)) 3 [issue_1; issue_2] 1 0 initial
  = for_each [issue_1; issue_2]
      (fun issue =>
         migrateIssue sample_world "Sample" empty_config VUndefined
           (fun date => Normal (to_string date)) issue >>
         delay (getDelayMs empty_config)) initial.
Proof.
  apply (batch_size_unobservable sample_world "Sample" empty_config VUndefined
           (fun date => Normal (to_string date)) [issue_1; issue_2] 1 3 initial).
  - lia.
  - simpl. lia.
Defined.
(** ** The requests of the paginated fetch *)

Section GetAllIssuesRequests.

Context (world : World).
Context (projectIdentifier : value).
Context (s0 : State).

Lemma getAllIssues_start (fuel : nat) :
  getAllIssues world fuel projectIdentifier s0
  = getAllIssues_loop world fuel (request_project_id projectIdentifier)
      (collected world projectIdentifier s0 0) (100 * Z.of_nat 0)
      (at_turn projectIdentifier s0 0).
Proof.
  unfold getAllIssues, at_turn. cbn [turns_sent collected].
  rewrite app_nil_r, state_eta. reflexivity.
Qed.

(** The loop from turn [k] on: it ends at the first turn that stops it, or
    uses up its turns. *)
Lemma getAllIssues_loop_outcome (fuel : nat) :
  forall k,
  (forall j, (j < k)%nat -> stops world projectIdentifier s0 j = false) ->
  (exists k',
     (k <= k' < k + fuel)%nat
     /\ first_stop world projectIdentifier s0 k'
     /\ getAllIssues_loop world fuel (request_project_id projectIdentifier)
          (collected world projectIdentifier s0 k) (100 * Z.of_nat k)
          (at_turn projectIdentifier s0 k)
        = (Normal (collected world projectIdentifier s0 (S k')),
           {| trace := trace s0 ++ turns_sent projectIdentifier k'
                         ++ [GetIssues (request_project_id projectIdentifier)
                               (100 * Z.of_nat k')];
              issueIdMap := issueIdMap s0 |}))
  \/ ((forall j, (j < k + fuel)%nat -> stops world projectIdentifier s0 j = false)
      /\ getAllIssues_loop world fuel (request_project_id projectIdentifier)
           (collected world projectIdentifier s0 k) (100 * Z.of_nat k)
           (at_turn projectIdentifier s0 k)
         = (Unfinished, at_turn projectIdentifier s0 (k + fuel))).
Proof.
  induction fuel as [|fuel IH]; intros k Hbefore.
  - right. rewrite Nat.add_0_r. split; [exact Hbefore | reflexivity].
  - rewrite getAllIssues_loop_turn.
    destruct (stops world projectIdentifier s0 k) eqn:Hk.
    + left. exists k. split; [lia|]. split; [split; assumption | reflexivity].
    + assert (Hbefore' : forall j, (j < S k)%nat -> stops world projectIdentifier s0 j = false).
      { intros j Hj. destruct (decide (j = k)) as [->|Hne]; [exact Hk|].
        apply Hbefore. lia. }
      destruct (IH (S k) Hbefore') as [(k' & Hk' & Hfirst & Hrun)|[Hnone Hrun]].
      * left. exists k'. split; [lia|]. split; assumption.
      * right. replace (k + S fuel)%nat with (S k + fuel)%nat by lia.
        split; assumption.
Qed.

(** X19. [getAllIssues] never fails and leaves the identity map as it is.
    It sends the page requests at the offsets 0, 100, 200, ... with a
    delay of 100 after each but the last, and returns at the first turn
    that ends the loop, having sent nothing after that page request.  While
    no turn ends the loop it has sent a page request and a delay per turn. *)
Theorem getAllIssues_requests (fuel : nat) :
  (exists k,
     (k < fuel)%nat
     /\ first_stop world projectIdentifier s0 k
     /\ getAllIssues world fuel projectIdentifier s0
        = (Normal (collected world projectIdentifier s0 (S k)),
           {| trace := trace s0 ++ turns_sent projectIdentifier k
                         ++ [GetIssues (request_project_id projectIdentifier)
                               (100 * Z.of_nat k)];
              issueIdMap := issueIdMap s0 |}))
  \/ ((forall j, (j < fuel)%nat -> stops world projectIdentifier s0 j = false)
      /\ getAllIssues world fuel projectIdentifier s0
         = (Unfinished,
            {| trace := trace s0 ++ turns_sent projectIdentifier fuel;
               issueIdMap := issueIdMap s0 |})).
Proof.
  rewrite getAllIssues_start.
  destruct (getAllIssues_loop_outcome fuel 0 ltac:(intros j Hj; lia))
    as [(k & Hk & Hfirst & Hrun)|[Hnone Hrun]].
  - left. exists k. split; [lia|]. split; assumption.
  - right. split; assumption.
Qed.

End GetAllIssuesRequests.

Section GetAllIssuesBound.

Context (world : World).
Context (projectIdentifier : value).
Context (s0 : State).

(** While no turn ends the loop, every page adds at least 100 records. *)
Lemma collected_full_pages (k : nat) :
  (forall j, (j < k)%nat -> stops world projectIdentifier s0 j = false) ->
  (100 * k <= length (collected world projectIdentifier s0 k))%nat.
Proof.
  induction k as [|k IH]; intros Hbefore; [simpl; lia|].
  cbn [collected]. rewrite length_app.
  assert (Hk := Hbefore k ltac:(lia)).
  specialize (IH ltac:(intros j Hj; apply Hbefore; lia)).
  unfold stops, fetch_failed, short_page in Hk. unfold page_issues.
  destruct (page_response world projectIdentifier s0 k) as [data|]; [|discriminate Hk].
  cbn [orb] in Hk. apply orb_false_iff in Hk as [Hshort _].
  apply Nat.ltb_ge in Hshort. lia.
Qed.

(** X20. When every page that is answered reports a total of at most [T]
    records, the loop ends within [T / 100 + 1] page requests: the fetch
    returns, at a turn [k] with [100 * k <= T]. *)
Theorem getAllIssues_bounded_by_total (T : Z) :
  (forall k data,
     page_response world projectIdentifier s0 k = Some data ->
     exists n, total_count data = Some n /\ n <= T) ->
  exists k,
    100 * Z.of_nat k <= Z.max 0 T
    /\ first_stop world projectIdentifier s0 k
    /\ getAllIssues world (S k) projectIdentifier s0
       = (Normal (collected world projectIdentifier s0 (S k)),
          {| trace := trace s0 ++ turns_sent projectIdentifier k
                        ++ [GetIssues (request_project_id projectIdentifier)
                              (100 * Z.of_nat k)];
             issueIdMap := issueIdMap s0 |}).
Proof.
  intros Htotal.
  set (K := Z.to_nat (Z.max 0 T / 100)).
  assert (HK : Z.max 0 T < 100 * Z.of_nat (S K)).
  { unfold K. rewrite Nat2Z.inj_succ, Z2Nat.id by (apply Z.div_pos; lia).
    apply Z.mul_succ_div_gt. lia. }
  assert (Hfirst : exists k, (k < S K)%nat /\ first_stop world projectIdentifier s0 k).
  { destruct (first_stop_search world projectIdentifier s0 (S K)) as [Hnone|Hsome];
      [|exact Hsome].
    exfalso.
    pose proof (collected_full_pages (S K) Hnone) as Hlen.
    assert (Hstop := Hnone K ltac:(lia)).
    unfold stops, fetch_failed, total_reached in Hstop.
    destruct (page_response world projectIdentifier s0 K) as [data|] eqn:Hpage;
      [|discriminate Hstop].
    destruct (Htotal K data Hpage) as (n & Hn & HnT).
    apply orb_false_iff in Hstop as [_ Hreached].
    rewrite Hn in Hreached. cbn [reached_total] in Hreached.
    apply Z.leb_gt in Hreached. lia. }
  destruct Hfirst as (k & Hk & Hfirst). exists k. split; [|split; [exact Hfirst|]].
  - pose proof (Z.div_pos (Z.max 0 T) 100 ltac:(lia) ltac:(lia)) as Hpos.
    pose proof (Z.mul_div_le (Z.max 0 T) 100 ltac:(lia)) as Hle.
    unfold K in Hk. clear HK. revert Hk Hpos Hle.
    generalize (Z.max 0 T / 100). intros q Hk Hpos Hle. lia.
  - rewrite getAllIssues_start.
    destruct (getAllIssues_loop_outcome world projectIdentifier s0 (S k) 0
                ltac:(intros j Hj; lia))
      as [(k' & Hk' & Hfirst' & Hrun)|[Hnone _]].
    + pose proof (first_stop_unique world projectIdentifier s0 k k' Hfirst Hfirst') as <-.
      exact Hrun.
    + destruct Hfirst as [Hstop _]. rewrite Hnone in Hstop by lia. discriminate Hstop.
Qed.

End GetAllIssuesBound.

Lemma getAllIssues_bounded_by_total_witness :
  exists k,
    100 * Z.of_nat k <= Z.max 0 2
    /\ first_stop sample_world VNull initial k
    /\ getAllIssues sample_world (S k) VNull initial
       = (Normal (collected sample_world VNull initial (S k)),
          {| trace := trace initial ++ turns_sent VNull k
                        ++ [GetIssues (request_project_id VNull) (100 * Z.of_nat k)];
             issueIdMap := issueIdMap initial |}).
Proof.
  apply (getAllIssues_bounded_by_total sample_world VNull initial 2).
  intros k data Hpage. unfold page_response in Hpage. cbn [sample_world redmine_issues] in Hpage.
  destruct (100 * Z.of_nat k =? 0); [|discriminate Hpage].
  injection Hpage as <-. exists 2. split; [reflexivity | lia].
Defined.
(** ** The detail loop, the single mode and the connection test *)

Section Modes.

Context (world : World).
Context (project : string).
Context (config : Config).
Context (REDMINE_URL : value).
Context (project_identifier : value).
Context (toISOString : value -> completion string).


Lemma omap_seq_shift {A} (f : nat -> option A) (start len : nat) :
  omap f (seq (S start) len) = omap (fun k => f (S k)) (seq start len).
Proof.
  revert start. induction len as [|len IH]; intros start; [reflexivity|].
  cbn [seq omap list_omap]. rewrite <- IH. reflexivity.
Qed.

Lemma omap_pointwise {A B} (f g : A -> option B) (l : list A) :
  (forall x, f x = g x) -> omap f l = omap g l.
Proof.
  intros H. induction l as [|x l IH]; [reflexivity|].
  cbn [omap list_omap]. rewrite H, IH. reflexivity.
Qed.

(** The records kept for a listing: the answer for its first record, then
    the records kept for the rest after the turn of the first. *)
Lemma kept_details_cons (issue : Issue) (rest : list Issue) (sent : list event) :
  kept_details world config (issue :: rest) sent
  = match redmine_issue world sent (id issue) with
    | Some detailed => [detailed]
    | None => []
    end
    ++ kept_details world config rest
         (sent ++ [GetIssueDetails (id issue); Delay (getDelayMs config)]).
Proof.
  unfold kept_details. cbn [length seq omap list_omap].
  rewrite omap_seq_shift.
  rewrite (omap_pointwise _ (detail_answer world config rest
             (sent ++ [GetIssueDetails (id issue); Delay (getDelayMs config)]))).
  - unfold detail_answer at 1. cbn [lookup list_lookup mbind option_bind take
      detail_requests flat_map]. rewrite app_nil_r.
    destruct (redmine_issue world sent (id issue)); reflexivity.
  - intros k. unfold detail_answer. cbn [lookup list_lookup take detail_requests flat_map].
    rewrite <- app_assoc. reflexivity.
Qed.

(** X21. The detail loop never fails.  It sends the detail request of
    every listed record, in the order of the listing and whatever the
    answers are, with the delay after each; and it keeps exactly the
    records of the answered requests, in that order: the answers to the
    detail requests of the listed records, each asked after the turns for
    the records before it. *)
Theorem fetch_details_requests (issues detailedIssues : list Issue) (s : State) :
  fetch_details world config issues detailedIssues s
  = (Normal (detailedIssues ++ kept_details world config issues (trace s)),
     {| trace := trace s ++ detail_requests config issues;
        issueIdMap := issueIdMap s |}).
Proof.
  revert detailedIssues s.
  induction issues as [|issue rest IH]; intros detailedIssues s.
  - cbn [fetch_details detail_requests flat_map ret kept_details length seq omap list_omap].
    rewrite !app_nil_r, state_eta. reflexivity.
  - cbn [fetch_details]. rewrite bind_run. unfold getIssueDetails at 1. unfold request at 1.
    cbv zeta. rewrite bind_run. unfold delay at 1. unfold request at 1.
    cbn [trace issueIdMap]. rewrite IH, kept_details_cons.
    cbn [trace issueIdMap detail_requests flat_map].
    rewrite <- !app_assoc. cbn [app].
    destruct (redmine_issue world (trace s) (id issue)) as [detailed|].
    + rewrite <- app_assoc. reflexivity.
    + reflexivity.
Qed.

(** Requests that are neither a link request nor the writing of the
    mapping file. *)
Ltac emits_walk :=
  unfold createWorkItem, addComment, uploadAttachment, attachFileToWorkItem, createLink,
    getIssueDetails, getAttachmentContent, redmine_delay, delay;
  repeat first
    [ apply emits_ret
    | apply emits_lift
    | apply emits_get_map
    | apply emits_put_map
    | apply emits_request; first [reflexivity | split; reflexivity]
    | apply emits_when
    | apply emits_for_each; intros ?
    | apply emits_bind; [|intros ?]
    | match goal with
      | |- emits _ (match ?x with _ => _ end) => destruct x
      end ].

Lemma node_phase_fetch_details (issues : list Issue) :
  forall detailedIssues,
  emits (fun e => is_link e = false /\ is_write e = false)
    (fetch_details world config issues detailedIssues).
Proof.
  induction issues as [|issue rest IH]; intros detailedIssues; simpl.
  - apply emits_ret.
  - emits_walk; apply IH.
Qed.

Lemma node_phase_getAllIssues_loop (fuel : nat) :
  forall project_id allIssues offset,
  emits (fun e => is_link e = false /\ is_write e = false)
    (getAllIssues_loop world fuel project_id allIssues offset).
Proof.
  induction fuel as [|fuel IH]; intros project_id allIssues offset; simpl.
  - apply emits_lift.
  - emits_walk. apply IH.
Qed.

Lemma node_phase_migrateIssue (issue : Issue) :
  emits (fun e => is_link e = false /\ is_write e = false)
    (migrateIssue world project config REDMINE_URL toISOString issue).
Proof. unfold migrateIssue, migrateComments, migrateAttachments. cbv zeta. emits_walk. Qed.

Lemma node_phase_batch_loop (fuel : nat) (detailedIssues : list Issue) (batchSize : Z) :
  forall i,
  emits (fun e => is_link e = false /\ is_write e = false)
    (batch_loop world project config REDMINE_URL toISOString fuel detailedIssues batchSize i).
Proof.
  induction fuel as [|fuel IH]; intros i; simpl.
  - apply emits_lift.
  - destruct (i <? Z.of_nat (length detailedIssues)); [|apply emits_ret].
    apply emits_bind; [|intros _; apply IH].
    apply emits_for_each. intros issue.
    apply emits_bind; [apply node_phase_migrateIssue|]. intros _. emits_walk.
Qed.

Lemma no_write_migrateRelations (redmineIssues : list Issue) :
  emits (fun e => is_write e = false) (migrateRelations world config redmineIssues).
Proof.
  unfold migrateRelations, migrate_relations_of, migrate_parent, migrate_relation.
  emits_walk.
Qed.

(** The run up to the end of the batch loop. *)
Lemma node_phase (fuel : nat) :
  emits (fun e => is_link e = false /\ is_write e = false)
    (let* issues := getAllIssues world fuel (js_or project_identifier VNull) in
     let* detailedIssues := fetch_details world config issues [] in
     batch_loop world project config REDMINE_URL toISOString fuel detailedIssues
       (getBatchSize config) 0).
Proof.
  apply emits_bind; [apply node_phase_getAllIssues_loop|]. intros issues.
  apply emits_bind; [apply node_phase_fetch_details|]. intros detailedIssues.
  apply node_phase_batch_loop.
Qed.

(** X22. A negative batch size keeps a full-batch run from completing: as
    soon as a record has been fetched, the index of the batch loop stays
    below the number of records for ever, and the run never reaches the
    relation phase or the mapping file. *)
Theorem negative_batch_size_never_completes (fuel : nat) :
  getBatchSize config < 0 ->
  fetched_records world config project_identifier fuel <> [] ->
  let run :=
    migrateAllIssues world project config REDMINE_URL project_identifier toISOString
      fuel initial in
  run.1 <> Normal tt
  /\ Forall (fun e => is_link e = false /\ is_write e = false) (trace run.2).
Proof.
  intros Hneg Hfetched. cbv zeta.
  destruct (node_phase fuel initial) as (sent & Hsent & Hclean).
  cbn [initial trace app] in Hsent.
  unfold migrateAllIssues, fetched_records in *. cbv zeta in *.
  rewrite !bind_run in *.
  destruct (getAllIssues world fuel (js_or project_identifier VNull) initial)
    as [[issues|e|] s1]; cbn [fst snd] in *;
    [|split; [discriminate | rewrite Hsent; exact Hclean]..].
  destruct issues as [|issue rest]; [contradiction Hfetched; reflexivity|].
  rewrite !bind_run in *.
  destruct (fetch_details world config (issue :: rest) [] s1)
    as [[fetched|e|] s2]; cbn [fst snd] in *;
    [|split; [discriminate | rewrite Hsent; exact Hclean]..].
  rewrite bind_run.
  pose proof (batch_loop_negative world project config REDMINE_URL toISOString
                fuel fetched (getBatchSize config) Hneg 0 s2) as Hloop.
  destruct (batch_loop world project config REDMINE_URL toISOString fuel fetched
              (getBatchSize config) 0 s2) as [[[]|e|] s3]; cbn [fst snd] in *.
  - exfalso. apply Hloop; [|reflexivity].
    destruct fetched; [contradiction Hfetched; reflexivity | simpl; lia].
  - split; [discriminate | rewrite Hsent; exact Hclean].
  - split; [discriminate | rewrite Hsent; exact Hclean].
Qed.

(** X23. The single mode sends the detail request of the issue and then
    migrates the record of the answer like the batch loop does, but never
    creates a link.  When the detail request fails it sends nothing else
    and leaves the identity map as it is. *)
Theorem migrateSingleIssue_requests (issueId : Z) (s : State) :
  let run :=
    migrateSingleIssue world project config REDMINE_URL toISOString issueId s in
  exists sent,
    trace run.2 = trace s ++ GetIssueDetails issueId :: sent
    /\ Forall (fun e => is_link e = false) sent
    /\ match redmine_issue world (trace s) issueId with
       | Some issue =>
           creations sent = [creation_request project config REDMINE_URL issue]
       | None =>
           sent = [] /\ run.1 = Normal tt /\ issueIdMap run.2 = issueIdMap s
       end.
Proof.
  cbv zeta. unfold migrateSingleIssue. rewrite bind_run.
  unfold getIssueDetails at 1 2 3. unfold request at 1 2 3.
  destruct (redmine_issue world (trace s) issueId) as [issue|].
  - rewrite bind_run.
    match goal with
    | |- context [migrateIssue _ _ _ _ _ issue ?s1] =>
        destruct (migrateIssue_requests world project config REDMINE_URL toISOString
                    issue s1) as (extras & Ht & Hextras);
        destruct (migrateIssue world project config REDMINE_URL toISOString issue s1)
          as [[workItem|e|] s2]
    end; cbn [fst snd trace ret] in *;
      (exists (creation_request project config REDMINE_URL issue :: extras);
       split; [rewrite Ht, <- app_assoc; reflexivity|];
       split;
       [ constructor; [reflexivity|];
         eapply Forall_impl; [exact Hextras | apply extra_not_link]
       | unfold creations; cbn [List.filter creation_request is_create];
         fold (creations extras); rewrite (creations_extra extras Hextras); reflexivity ]).
  - exists []. cbn [ret fst snd trace issueIdMap]. repeat split. constructor.
Qed.




(** X25. The toggles of the comments and of the attachments are off only
    when set to [false] itself (not when missing, [null] or 0).  With the
    comment toggle off [migrateIssue] sends no comment request, with the
    attachment toggle off no download, upload or attach request, whatever
    the record holds. *)
Theorem node_toggles (issue : Issue) :
  (shouldMigrateComments config = false
   <-> migrate_comments (migration_options config) = VBool false)
  /\ (shouldMigrateAttachments config = false
      <-> migrate_attachments (migration_options config) = VBool false)
  /\ (migrate_comments (migration_options config) = VBool false ->
      emits (fun e => is_comment e = false)
        (migrateIssue world project config REDMINE_URL toISOString issue))
  /\ (migrate_attachments (migration_options config) = VBool false ->
      emits (fun e => is_attachment e = false)
        (migrateIssue world project config REDMINE_URL toISOString issue)).
Proof.
  assert (Hoff : forall v, not_false v = false <-> v = VBool false).
  { intros v. destruct v as [| |[]| | | |]; cbn; split; congruence. }
  split; [apply Hoff|]. split; [apply Hoff|]. split; intros Hflag.
  - unfold migrateIssue, shouldMigrateComments. rewrite Hflag.
    cbn [not_false andb]. unfold migrateAttachments. cbv zeta. emits_walk.
  - unfold migrateIssue, shouldMigrateAttachments. rewrite Hflag.
    cbn [not_false andb]. unfold migrateComments. cbv zeta. emits_walk.
Qed.

End Modes.


Lemma negative_batch_size_never_completes_witness :
  let run :=
    migrateAllIssues sample_world "Sample" (with_batch_size (-1)) VUndefined VUndefined
      (fun date => Normal (to_string date)) 3 initial in
  run.1 <> Normal tt
  /\ Forall (fun e => is_link e = false /\ is_write e = false) (trace run.2).
Proof.
  apply (negative_batch_size_never_completes sample_world "Sample" (with_batch_size (-1))
           VUndefined VUndefined (fun date => Normal (to_string date)) 3).
  - reflexivity.
  - intros H. vm_compute in H. discriminate H.
Defined.

Lemma node_toggles_witness :
  emits (fun e => is_comment e = false)
    (migrateIssue sample_world "Sample" (without_comments empty_config) VUndefined
       (fun date => Normal (to_string date)) issue_1).
Proof.
  destruct (node_toggles sample_world "Sample" (without_comments empty_config) VUndefined
              (fun date => Normal (to_string date)) issue_1) as (_ & _ & Hoff & _).
  apply Hoff. reflexivity.
Defined.
(** ** The end of a full-batch run *)

Lemma no_write_cut (sent t1 t2 : list event) (m : gmap Z Z) :
  Forall (fun e => is_write e = false) sent ->
  sent <> t1 ++ WriteMapping m :: t2.
Proof.
  intros Hsent ->. apply Forall_app in Hsent as [_ Hsent].
  apply Forall_cons in Hsent as [Hwrite _]. discriminate Hwrite.
Qed.

Lemma last_write_cut (before : list event) (m' : gmap Z Z) :
  Forall (fun e => is_write e = false) before ->
  forall t1 t2 m,
  before ++ [WriteMapping m'] = t1 ++ WriteMapping m :: t2 ->
  t1 = before /\ m = m' /\ t2 = [].
Proof.
  induction 1 as [|e before He _ IH]; intros t1 t2 m Hcut.
  - destruct t1 as [|e1 t1]; simpl in Hcut.
    + injection Hcut as <- <-. repeat split.
    + injection Hcut as _ Hcut. destruct t1; discriminate Hcut.
  - destruct t1 as [|e1 t1]; simpl in Hcut.
    + injection Hcut as -> _. discriminate He.
    + injection Hcut as <- Hcut. destruct (IH t1 t2 m Hcut) as (-> & -> & ->).
      repeat split.
Qed.

Section FullRun.

Context (world : World).
Context (project : string).
Context (config : Config).
Context (REDMINE_URL : value).
Context (project_identifier : value).
Context (toISOString : value -> completion string).

(** X26. The mapping file is written at most once, as the last thing a
    full-batch run does, and it holds the identity map the run ends with.
    It is written only by a run that completes: not when the listing is
    empty, and not when a comment could not be formatted. *)
Theorem mapping_written_last (fuel : nat) (t1 t2 : list event) (m : gmap Z Z) :
  let run :=
    migrateAllIssues world project config REDMINE_URL project_identifier toISOString
      fuel initial in
  trace run.2 = t1 ++ WriteMapping m :: t2 ->
  run.1 = Normal tt
  /\ t2 = []
  /\ m = issueIdMap run.2
  /\ Forall (fun e => is_write e = false) t1.
Proof.
  cbv zeta.
  destruct (node_phase world project config REDMINE_URL project_identifier toISOString
              fuel initial) as (sent & Hsent & Hclean).
  cbn [initial trace app] in Hsent.
  assert (Hnw : Forall (fun e => is_write e = false) sent).
  { eapply Forall_impl; [exact Hclean|]. intros e [_ He]. exact He. }
  clear Hclean.
  unfold migrateAllIssues. cbv zeta. rewrite !bind_run in *.
  destruct (getAllIssues world fuel (js_or project_identifier VNull) initial)
    as [[issues|e|] s1]; cbn [fst snd] in *;
    [|intros Hcut; rewrite Hsent in Hcut; contradiction (no_write_cut _ _ _ _ Hnw Hcut)..].
  destruct issues as [|issue rest].
  { intros Hcut. exfalso. apply (no_write_cut sent t1 t2 m Hnw).
    rewrite <- Hcut, <- Hsent. cbn [fetch_details ret].
    destruct fuel; reflexivity. }
  rewrite !bind_run in *.
  destruct (fetch_details world config (issue :: rest) [] s1)
    as [[fetched|e|] s2]; cbn [fst snd] in *;
    [|intros Hcut; rewrite Hsent in Hcut; contradiction (no_write_cut _ _ _ _ Hnw Hcut)..].
  rewrite bind_run.
  destruct (batch_loop world project config REDMINE_URL toISOString fuel fetched
              (getBatchSize config) 0 s2) as [[[]|e|] s3]; cbn [fst snd] in *;
    [|intros Hcut; rewrite Hsent in Hcut; contradiction (no_write_cut _ _ _ _ Hnw Hcut)..].
  rewrite bind_run.
  destruct (no_write_migrateRelations world config fetched s3) as (links & Hlinks & Hnw').
  destruct (migrateRelations world config fetched s3) as [[[]|e|] s4]; cbn [fst snd] in *.
  - rewrite bind_run. cbn [get_map request fst snd trace issueIdMap].
    rewrite Hlinks, Hsent. intros Hcut.
    apply last_write_cut in Hcut as (-> & -> & ->); [|apply Forall_app; split; assumption].
    repeat split. apply Forall_app; split; assumption.
  - intros Hcut. exfalso. apply (no_write_cut (sent ++ links) t1 t2 m).
    + apply Forall_app; split; assumption.
    + rewrite <- Hcut, Hlinks, Hsent. reflexivity.
  - intros Hcut. exfalso. apply (no_write_cut (sent ++ links) t1 t2 m).
    + apply Forall_app; split; assumption.
    + rewrite <- Hcut, Hlinks, Hsent. reflexivity.
Qed.






End FullRun.

Lemma mapping_written_last_witness :
  sample_run.1 = Normal tt
  /\ Forall (fun e => is_write e = false) (removelast (trace sample_run.2)).
Proof.
  destruct (mapping_written_last sample_world "Sample" empty_config VUndefined VUndefined
              (fun date => Normal (to_string date)) 3
              (removelast (trace sample_run.2)) [] (issueIdMap sample_run.2))
    as (Hrun & _ & _ & Hbefore).
  - vm_compute. reflexivity.
  - split; [exact Hrun | exact Hbefore].
Defined.

Section EmptyListing.

Context (world : World).
Context (project : string).
Context (config : Config).
Context (REDMINE_URL : value).
Context (project_identifier : value).
Context (toISOString : value -> completion string).

(** X28. A full-batch run whose first page request fails, or is answered
    with an empty page, completes as if the source held no record: it has
    sent that one request and nothing else, the identity map is empty and
    the mapping file is not written. *)
Theorem empty_listing_migrates_nothing (fuel : nat) :
  page_issues world (js_or project_identifier VNull) initial 0 = [] ->
  stops world (js_or project_identifier VNull) initial 0 = true ->
  migrateAllIssues world project config REDMINE_URL project_identifier toISOString
    (S fuel) initial
  = (Normal tt,
     {| trace := [GetIssues (request_project_id (js_or project_identifier VNull)) 0];
        issueIdMap := ∅ |}).
Proof.
  intros Hempty Hstop. unfold migrateAllIssues. cbv zeta. rewrite bind_run.
  rewrite getAllIssues_start.
  rewrite getAllIssues_loop_turn, Hstop.
  cbn [collected turns_sent app initial trace issueIdMap Z.of_nat Z.mul].
  rewrite Hempty. reflexivity.
Qed.

End EmptyListing.

Lemma empty_listing_migrates_nothing_witness :
  migrateAllIssues unreachable_world "Sample" empty_config VUndefined VUndefined
    (fun date => Normal (to_string date)) 1 initial
  = (Normal tt, {| trace := [GetIssues VUndefined 0]; issueIdMap := ∅ |}).
Proof.
  apply (empty_listing_migrates_nothing unreachable_world "Sample" empty_config
           VUndefined VUndefined (fun date => Normal (to_string date)) 0);
    reflexivity.
Defined.
(** ** The links of the relation phase *)

Lemma append_not_empty (a b : string) : b <> "" -> a +:+ b <> "".
Proof.
  intros Hb. destruct a as [|c a]; [exact Hb|].
  change (String c a +:+ b) with (String c (a +:+ b)). discriminate.
Qed.

Section LinksWithin.

Context (world : World).
Context (config : Config).
Context (m : gmap Z Z).

Lemma links_within_ret : links_within m (ret tt).
Proof.
  intros s <-. exists []. rewrite app_nil_r, state_eta. split; [reflexivity | constructor].
Qed.

Lemma links_within_then (c1 c2 : M unit) :
  links_within m c1 -> links_within m c2 -> links_within m (c1 >> c2).
Proof.
  intros H1 H2 s Hs. rewrite bind_run.
  destruct (H1 s Hs) as (sent1 & -> & Hsent1).
  destruct (H2 {| trace := trace s ++ sent1; issueIdMap := m |} eq_refl)
    as (sent2 & -> & Hsent2).
  exists (sent1 ++ sent2). cbn [trace]. rewrite app_assoc.
  split; [reflexivity | apply Forall_app; split; assumption].
Qed.

Lemma links_within_when (c : bool) (body : M unit) :
  links_within m body -> links_within m (when c body).
Proof. intros H. destruct c; [exact H | apply links_within_ret]. Qed.

Lemma links_within_for_each {A} (l : list A) (body : A -> M unit) :
  (forall x, links_within m (body x)) -> links_within m (for_each l body).
Proof.
  intros H. induction l as [|x rest IH]; [apply links_within_ret|].
  cbn [for_each]. apply links_within_then; [apply H | exact IH].
Qed.

Lemma links_within_with_map (k : gmap Z Z -> M unit) :
  links_within m (k m) -> links_within m (let* m' := get_map in k m').
Proof.
  intros H s Hs. rewrite bind_run. cbn [get_map]. rewrite Hs. exact (H s Hs).
Qed.

(** A link step between two work items of the map. *)
Lemma links_within_link_step (sourceId targetId source target : Z) (linkType : value)
    (comment : string) :
  m !! sourceId = Some source -> m !! targetId = Some target -> comment <> "" ->
  links_within m
    (createLink world source target linkType comment >> delay (getDelayMs config)).
Proof.
  intros Hsource Htarget Hcomment s Hs. rewrite bind_run. unfold createLink.
  destruct (Z.eqb_spec source target) as [Heq|Hne].
  - exists [Delay (getDelayMs config)]. rewrite <- Hs.
    split; [reflexivity | repeat constructor].
  - apply String.eqb_neq in Hcomment. rewrite Hcomment.
    exists [CreateLink source target linkType comment; Delay (getDelayMs config)].
    unfold delay, request. cbn [trace issueIdMap]. rewrite <- app_assoc, Hs.
    split; [reflexivity|].
    apply String.eqb_neq in Hcomment.
    repeat constructor; eauto.
Qed.

Lemma links_within_migrate_relations_of (issue : Issue) :
  links_within m (migrate_relations_of world config issue).
Proof.
  unfold migrate_relations_of, migrate_parent, migrate_relation.
  apply links_within_with_map.
  destruct (issueIdMap_get m (id issue)) as [source|] eqn:Hsource;
    [|apply links_within_ret].
  destruct (truthy_id (Some source)); [|apply links_within_ret].
  apply links_within_then.
  - apply links_within_when, links_within_when, links_within_with_map.
    destruct (issueIdMap_get_value m (getParentId issue)) as [target|] eqn:Htarget;
      [|apply links_within_ret].
    apply links_within_when.
    destruct (getParentId issue) as [| | |parentId| | |]; try discriminate Htarget.
    apply (links_within_link_step (id issue) parentId);
      [exact Hsource | exact Htarget | discriminate].
  - apply links_within_when, links_within_for_each. intros relation.
    apply links_within_with_map.
    destruct (issueIdMap_get_value m (targetRedmineId relation)) as [target|] eqn:Htarget;
      [|apply links_within_ret].
    apply links_within_when.
    destruct (targetRedmineId relation) as [| | |targetId| | |]; try discriminate Htarget.
    apply (links_within_link_step (id issue) targetId);
      [exact Hsource | exact Htarget | apply append_not_empty; discriminate].
Qed.

(** X29. The relation phase links migrated work items only: every link
    request it sends goes from one work item of the identity map to a
    different one, and carries a comment. *)
Theorem links_between_migrated_only (redmineIssues : list Issue) (s : State) :
  issueIdMap s = m ->
  exists sent,
    migrateRelations world config redmineIssues s
    = (Normal tt, {| trace := trace s ++ sent; issueIdMap := m |})
    /\ Forall (link_between m) sent.
Proof.
  apply (links_within_for_each redmineIssues (migrate_relations_of world config)).
  apply links_within_migrate_relations_of.
Qed.

End LinksWithin.

Lemma links_between_migrated_only_witness :
  exists sent,
    migrateRelations sample_world empty_config [issue_1; issue_2] both_migrated
    = (Normal tt,
       {| trace := trace both_migrated ++ sent; issueIdMap := {[ 1 := 501; 2 := 502 ]} |})
    /\ Forall (link_between {[ 1 := 501; 2 := 502 ]}) sent.
Proof.
  apply (links_between_migrated_only sample_world empty_config {[ 1 := 501; 2 := 502 ]}
           [issue_1; issue_2] both_migrated).
  reflexivity.
Defined.
